(** * poki_scraper: a shallow embedding of the game-catalogue scraper

    The development follows [src/poki_scraper.py].  The scraper talks to three
    libraries whose code is not part of the repository: BeautifulSoup (HTML
    parsing and CSS selection), aiohttp / undetected_chromedriver (retrieval)
    and the Python standard library ([urljoin], [json.loads]).  They are
    gathered in a record [World]; every function of the scraper is translated
    line by line over such a world. *)

From Stdlib Require Import String Ascii List ZArith Lia Bool Arith Permutation.
From Stdlib Require Import DecimalString.
Import ListNotations.
Set Warnings "-register-all".
Local Open Scope list_scope.
Local Open Scope string_scope.

(** ** Python built-ins used by the scraper *)

Module Py.

(** The characters [str.strip] and the regular expression class [\s] remove
    (ASCII range): tab, line feed, vertical tab, form feed, carriage return,
    the four separators 28..31 and the blank. *)
Definition is_space (c : ascii) : bool :=
  let n := nat_of_ascii c in
  (((9 <=? n) && (n <=? 13)) || ((28 <=? n) && (n <=? 32)))%nat.

Fixpoint lstrip (s : string) : string :=
  match s with
  | EmptyString => EmptyString
  | String c s' => if is_space c then lstrip s' else s
  end.

Fixpoint rstrip (s : string) : string :=
  match s with
  | EmptyString => EmptyString
  | String c s' =>
      match rstrip s' with
      | EmptyString => if is_space c then EmptyString else String c EmptyString
      | r => String c r
      end
  end.

(** [s.strip()] *)
Definition strip (s : string) : string := rstrip (lstrip s).

(** Truth value of a string: [if s:] *)
Definition nonempty (s : string) : bool :=
  match s with EmptyString => false | String _ _ => true end.

(** [a or b] on strings *)
Definition str_or (a b : string) : string := if nonempty a then a else b.

(** [s.startswith(p)] *)
Definition startswith (s p : string) : bool := String.prefix p s.

(** [needle in s] *)
Fixpoint contains (needle s : string) : bool :=
  String.prefix needle s ||
  match s with
  | EmptyString => false
  | String _ s' => contains needle s'
  end.

(** [s.split(sep)] for a non-empty separator: occurrences are found from the
    left and do not overlap.  [skip] counts the characters of a separator that
    are still to be consumed, [cur] is the piece being read. *)
Fixpoint split_from (sep : string) (skip : nat) (cur s : string) : list string :=
  match s with
  | EmptyString => [cur]
  | String c s' =>
      match skip with
      | S k => split_from sep k cur s'
      | O =>
          if String.prefix sep s
          then cur :: split_from sep (String.length sep - 1) EmptyString s'
          else split_from sep 0 (cur ++ String c EmptyString) s'
      end
  end.

Definition split (s sep : string) : list string := split_from sep 0 EmptyString s.

(** [l[-1]] on a list of strings that is never empty here *)
Definition last_piece (l : list string) : string := List.last l EmptyString.

(** The double quote, which the selectors and one regular expression contain. *)
Definition dq : string := String (ascii_of_nat 34) EmptyString.

(** The class [[a-f0-9]] *)
Definition is_hex (c : ascii) : bool :=
  let n := nat_of_ascii c in
  (((48 <=? n) && (n <=? 57)) || ((97 <=? n) && (n <=? 102)))%nat.

(** [n] characters of [[a-f0-9]] at the head of [s], and what follows them *)
Fixpoint take_hex (n : nat) (s : string) : option (string * string) :=
  match n with
  | O => Some (EmptyString, s)
  | S k =>
      match s with
      | String c s' =>
          if is_hex c then
            match take_hex k s' with
            | Some (h, rest) => Some (String c h, rest)
            | None => None
            end
          else None
      | EmptyString => None
      end
  end.

(** What follows the literal [p] at the head of [s] *)
Fixpoint after_literal (p s : string) : option string :=
  match p with
  | EmptyString => Some s
  | String a p' =>
      match s with
      | String b s' => if Ascii.eqb a b then after_literal p' s' else None
      | EmptyString => None
      end
  end.

Definition is_quote (c : ascii) : bool :=
  let n := nat_of_ascii c in ((n =? 34) || (n =? 39))%nat.

(** A match of [/games/([a-f0-9]{32})] anchored at the head of [s]: group 1 *)
Definition match_games_id (s : string) : option string :=
  match after_literal "/games/" s with
  | Some r => option_map fst (take_hex 32 r)
  | None => None
  end.

(** A match of [game_id\s*:\s*["']([a-f0-9]{32})["']] anchored at the head of
    [s]: group 1.  [\s*] is greedy and the character after it is no blank, so
    no backtracking is needed. *)
Definition match_game_id_field (s : string) : option string :=
  match after_literal "game_id" s with
  | Some r =>
      match after_literal ":" (lstrip r) with
      | Some r1 =>
          match lstrip r1 with
          | String q r2 =>
              if is_quote q then
                match take_hex 32 r2 with
                | Some (h, String q' _) => if is_quote q' then Some h else None
                | _ => None
                end
              else None
          | EmptyString => None
          end
      | None => None
      end
  | None => None
  end.

(** [re.search(pattern, s)]: the leftmost position at which the anchored
    matcher succeeds. *)
Fixpoint re_search (anchored : string -> option string) (s : string) : option string :=
  match anchored s with
  | Some g => Some g
  | None =>
      match s with
      | EmptyString => None
      | String _ s' => re_search anchored s'
      end
  end.

(** Python values as [json.loads] produces them.  Numbers are the integers;
    a number literal with a fraction or an exponent is outside the model. *)
Inductive pyval : Type :=
| PNone
| PBool (b : bool)
| PInt (z : Z)
| PStr (s : string)
| PList (l : list pyval)
| PDict (d : list (string * pyval)).

(** [bool(v)] *)
Definition truthy (v : pyval) : bool :=
  match v with
  | PNone => false
  | PBool b => b
  | PInt z => negb (Z.eqb z 0)
  | PStr s => nonempty s
  | PList l => match l with [] => false | _ :: _ => true end
  | PDict d => match d with [] => false | _ :: _ => true end
  end.

Fixpoint assoc {A : Type} (k : string) (d : list (string * A)) : option A :=
  match d with
  | [] => None
  | (k', v) :: d' => if String.eqb k k' then Some v else assoc k d'
  end.

(** [v.get(k, default)]: only a dict has the method, anything else raises
    AttributeError ([None]). *)
Definition py_get (v : pyval) (k : string) (default : pyval) : option pyval :=
  match v with
  | PDict d => Some (match assoc k d with Some x => x | None => default end)
  | _ => None
  end.

(** [v[k]] with a string [k]: KeyError on a dict without the key, TypeError
    on a value that is no dict; both are [None]. *)
Definition py_item (v : pyval) (k : string) : option pyval :=
  match v with
  | PDict d => assoc k d
  | _ => None
  end.

Fixpoint chars (s : string) : list pyval :=
  match s with
  | EmptyString => []
  | String c s' => PStr (String c EmptyString) :: chars s'
  end.

(** [for x in v]: a list gives its elements, a dict its keys, a string its
    characters; the other values are not iterable (TypeError, [None]). *)
Definition py_iter (v : pyval) : option (list pyval) :=
  match v with
  | PList l => Some l
  | PDict d => Some (map (fun kv => PStr (fst kv)) d)
  | PStr s => Some (chars s)
  | _ => None
  end.

(** The operand of [>] against an int: ints and bools compare as numbers,
    everything else raises TypeError ([None]). *)
Definition as_number (v : pyval) : option Z :=
  match v with
  | PInt z => Some z
  | PBool b => Some (if b then 1 else 0)%Z
  | _ => None
  end.

(** [str(v)] as an f-string inserts it.  The text of a list or of a dict is
    Python's [repr], which is left to the caller. *)
Definition py_str (repr : pyval -> string) (v : pyval) : string :=
  match v with
  | PStr s => s
  | PInt z => NilZero.string_of_int (Z.to_int z)
  | PBool true => "True"
  | PBool false => "False"
  | PNone => "None"
  | _ => repr v
  end.

(** [a or b] on lists, as in [soup.select(s1) or soup.select(s2)] *)
Definition list_or {A : Type} (a b : list A) : list A :=
  match a with
  | [] => b
  | _ :: _ => a
  end.

(** [l[i:j]] for [0 <= i <= j] *)
Definition slice {A : Type} (l : list A) (i j : nat) : list A :=
  firstn (j - i) (skipn i l).

(** [range(0, n, step)] *)
Definition range_step (n step : nat) : list nat :=
  map (fun k => k * step) (seq 0 ((n + (step - 1)) / step)).

End Py.

(** ** The view of BeautifulSoup the scraper relies on *)

Module Bs4.

(** An element: its attributes, [.text] and [.string] (the only child when it
    is a piece of text). *)
Record Tag : Type := mkTag {
  tag_name : string;
  tag_attrs : list (string * string);
  tag_text : string;
  tag_string : option string
}.

(** A parsed document, seen through the queries the scraper makes:
    [soup.select(selector)] in document order and
    [soup.find(name, attribute=value)]. *)
Record Soup : Type := mkSoup {
  select : string -> list Tag;
  find : string -> string -> string -> option Tag
}.

(** [soup.select_one(selector)] *)
Definition select_one (soup : Soup) (selector : string) : option Tag :=
  match select soup selector with
  | [] => None
  | t :: _ => Some t
  end.

(** [elem.get(key, '')] *)
Definition attr (t : Tag) (key : string) : string :=
  match Py.assoc key (tag_attrs t) with
  | Some v => v
  | None => EmptyString
  end.

(** Selector literals of the source; they hold double quotes. *)
Definition sel_eq (tag key value : string) : string :=
  tag ++ "[" ++ key ++ "=" ++ Py.dq ++ value ++ Py.dq ++ "]".

Definition sel_sub (tag key value : string) : string :=
  tag ++ "[" ++ key ++ "*=" ++ Py.dq ++ value ++ Py.dq ++ "]".

End Bs4.

Import Py Bs4.

(** ** Outcomes, records and the outside world *)

(** How a call ends: it returns, it raises an exception of class [Exception],
    or it raises [SystemExit], which no [except Exception] clause catches. *)
Inductive result (A : Type) : Type :=
| Ok (a : A)
| Raise
| SysExit (code : Z).

Arguments Ok {A} a.
Arguments Raise {A}.
Arguments SysExit {A} code.

(** The dictionary a successful extraction returns.  [name] and [description]
    are Python values, because the embedded-JSON path copies them from the
    payload as they are. *)
Record GameRecord : Type := mkGame {
  name : pyval;
  description : pyval;
  image_url : string;
  game_url : string;
  game_api_url : string
}.

(** The libraries and the network.
    - [urljoin base url]: [urllib.parse.urljoin];
    - [BeautifulSoup html]: the parsed document, [None] when the parser raises;
    - [json_loads s]: [json.loads], [None] when it raises;
    - [repr]: Python's text of a list or a dict;
    - [http_get url]: the body [session.get(url)] delivers with status 200,
      [None] for another status or a transport error; a URL gets the same
      answer throughout a run;
    - [chrome url]: whether [uc.Chrome(options)] starts while [url] is scraped;
    - [page_source url]: lines 102 to 120, the rendered listing page after the
      scroll loop, [None] when the driver raises;
    - [as_completed]: the order in which the worker threads finish. *)
Record World : Type := mkWorld {
  urljoin : string -> string -> string;
  BeautifulSoup : string -> option Soup;
  json_loads : string -> option pyval;
  repr : pyval -> string;
  http_get : string -> option string;
  chrome : string -> bool;
  page_source : string -> option string;
  as_completed : forall A : Type, list A -> list A;
  as_completed_perm : forall (A : Type) (l : list A), Permutation l (as_completed A l)
}.

(** [if x:] and [x or ''] for a variable that is [None] or a string *)
Definition truth (o : option string) : bool :=
  match o with
  | Some s => nonempty s
  | None => false
  end.

Definition or_empty (o : option string) : string :=
  match o with
  | Some s => s
  | None => EmptyString
  end.

Definition bind {A B : Type} (o : option A) (f : A -> option B) : option B :=
  match o with
  | Some a => f a
  | None => None
  end.

Notation "x <- e ;; k" := (bind e (fun x => k))
  (at level 61, e at next level, right associativity).

(** ** extract_game_info *)

Section Extractor.

Variable W : World.

Definition is_poki (url : string) : bool := contains "poki.com" url.
Definition is_gamepix (url : string) : bool := contains "gamepix.com" url.

Definition og (property : string) : string := sel_eq "meta" "property" ("og:" ++ property).

(** [elem.get('content', '') or elem.text.strip()] *)
Definition content_or_text (elem : Tag) : string :=
  str_or (attr elem "content") (strip (tag_text elem)).

(** [elem.get('content', '') or elem.get('src', '')] *)
Definition content_or_src (elem : Tag) : string :=
  str_or (attr elem "content") (attr elem "src").

(** The loop
    [for selector in selectors: elem = soup.select_one(selector);
     if elem: x = value(elem); if x: (x = on_hit(x);) break]
    started with [x = acc]. *)
Fixpoint first_match (value : Tag -> string) (on_hit : string -> string)
    (soup : Soup) (selectors : list string) (acc : option string) : option string :=
  match selectors with
  | [] => acc
  | selector :: rest =>
      match select_one soup selector with
      | Some elem =>
          let x := value elem in
          if nonempty x then Some (on_hit x)
          else first_match value on_hit soup rest (Some x)
      | None => first_match value on_hit soup rest acc
      end
  end.

(** Lines 203 to 240: the player frame of Poki. *)
Definition poki_iframe (soup : Soup) (url : string) : option GameRecord :=
  match find soup "iframe" "id" "game-element" with
  | Some iframe =>
      if truth (assoc "src" (tag_attrs iframe)) then
        let src := attr iframe "src" in
        let game_api_url :=
          if startswith src "http" then src else urljoin W "https://poki.com" src in
        let name :=
          first_match content_or_text (fun x => x) soup ["h1"; og "title"; "title"] None in
        let description :=
          option_map (fun e => attr e "content") (select_one soup (og "description")) in
        let image_url :=
          option_map (fun e => attr e "content") (select_one soup (og "image")) in
        if truth name
        then Some (mkGame (PStr (or_empty name)) (PStr (or_empty description))
                          (or_empty image_url) url game_api_url)
        else None
      else None
  | None => None
  end.

(** Lines 257 to 260: the scan for the widest asset.  [max_width] holds the
    number the last assigned width compares as. *)
Fixpoint scan_assets (assets : list pyval) (image_url : string) (max_width : Z)
    : option (string * Z) :=
  match assets with
  | [] => Some (image_url, max_width)
  | asset :: rest =>
      w <- py_get asset "width" (PInt 0) ;;
      n <- as_number w ;;
      if (n >? max_width)%Z then
        nm <- py_item asset "name" ;;
        w' <- py_item asset "width" ;;
        n' <- as_number w' ;;
        scan_assets rest ("https://img.gamedistribution.com/" ++ py_str (repr W) nm) n'
      else scan_assets rest image_url max_width
  end.

(** Lines 246 to 273, the body of the [try]: [None] when it raises,
    [Some None] when it falls out of the [if]s, [Some (Some r)] when it
    returns [r]. *)
Definition next_data (soup : Soup) (url : string) : option (option GameRecord) :=
  match find soup "script" "id" "__NEXT_DATA__" with
  | None => Some None
  | Some next_data_script =>
      s <- tag_string next_data_script ;;
      json_data <- json_loads W s ;;
      props <- py_get json_data "props" (PDict []) ;;
      pageProps <- py_get props "pageProps" (PDict []) ;;
      game_data <- py_get pageProps "game" (PDict []) ;;
      if truthy game_data then
        name <- py_get game_data "title" (PStr "") ;;
        description <- py_get game_data "description" (PStr "") ;;
        assets <- py_get game_data "assets" (PList []) ;;
        l <- py_iter assets ;;
        scanned <- scan_assets l "" 0 ;;
        game_id <- py_get game_data "objectID" (PStr "") ;;
        if truthy game_id then
          Some (Some (mkGame name description (fst scanned) url
            ("https://html5.gamedistribution.com/" ++ py_str (repr W) game_id ++ "/")))
        else Some None
      else Some None
  end.

(** [try: ... except Exception: print(...)]: an exception falls through. *)
Definition try_except {A : Type} (body : option (option A)) : option A :=
  match body with
  | Some r => r
  | None => None
  end.

(** Lines 278 to 312: the block of GamePix. *)
Definition gamepix_block (soup : Soup) (url : string) : option GameRecord :=
  let name := option_map (fun e => strip (tag_text e)) (select_one soup "h1") in
  let description :=
    option_map (fun e => strip (attr e "content"))
               (select_one soup (sel_eq "meta" "name" "description")) in
  let image_url :=
    option_map (fun e => attr e "content") (select_one soup (og "image")) in
  let game_api_url :=
    option_map (fun e => attr e "src") (select_one soup (sel_sub "iframe" "src" "/embed/")) in
  if truth name && (truth description || truth image_url)
  then Some (mkGame (PStr (or_empty name)) (PStr (or_empty description))
                    (or_empty image_url) url (or_empty game_api_url))
  else None.

(** Lines 315 to 346 *)
Definition name_selectors (url : string) : list string :=
  [og "title"; sel_eq "meta" "name" "title"] ++
  (if is_poki url then
     ["h1.game-name"; sel_sub "h1" "class" "GameName"; ".game-title"; sel_sub "" "class" "title"]
   else if is_gamepix url then
     ["h1"; ".game-title"; sel_sub "" "class" "game-name"]
   else
     ["h1"; "h2"; sel_sub "" "class" "title"; sel_sub "" "class" "game-title"]).

Definition generic_name (soup : Soup) (url : string) : option string :=
  first_match content_or_text (fun x => x) soup (name_selectors url) None.

(** Lines 349 to 377 *)
Definition desc_selectors (url : string) : list string :=
  [sel_eq "meta" "name" "description"; og "description"] ++
  (if is_poki url then
     [".game-description"; sel_sub "" "class" "Description"; ".description"]
   else if is_gamepix url then
     [".game-description"; sel_sub "" "class" "game-details"; sel_sub "" "class" "description"]
   else
     [sel_sub "" "class" "description"; sel_sub "" "class" "game-description"]).

Definition generic_description (soup : Soup) (url : string) : option string :=
  first_match content_or_text (fun x => x) soup (desc_selectors url) None.

(** Lines 380 to 415 *)
Definition img_selectors (url : string) : list string :=
  [og "image"; sel_eq "meta" "name" "thumbnail"] ++
  (if is_poki url then
     [".game-image img"; (sel_sub "" "class" "GameImage" ++ " img")%string; ".thumbnail img"]
   else if is_gamepix url then
     [".game-preview img"; ".game-thumbnail img"; (sel_sub "" "class" "game-image" ++ " img")%string]
   else
     [(sel_sub "" "class" "game-image" ++ " img")%string; (sel_sub "" "class" "thumbnail" ++ " img")%string;
      sel_sub "img" "src" "img.gamedistribution.com"]).

Definition absolute_image (url image_url : string) : string :=
  if startswith image_url "http" then image_url
  else if is_gamepix url then urljoin W "https://www.gamepix.com" image_url
  else urljoin W "https://gamedistribution.com" image_url.

Definition generic_image (soup : Soup) (url : string) : option string :=
  first_match content_or_src (absolute_image url) soup (img_selectors url) None.

(** Lines 418 to 440 *)
Definition generic_api_url (soup : Soup) (html url : string) : option string :=
  if is_poki url then
    let game_id :=
      if contains "/g/" url then Some (last_piece (split url "/g/"))
      else option_map (fun m => attr m "content") (find soup "meta" "property" "poki-game-id") in
    if truth game_id
    then Some ("https://game-cdn.poki.com/" ++ or_empty game_id ++ "/index.html")
    else None
  else if negb (is_gamepix url) then
    match re_search match_games_id url with
    | Some g => Some ("https://html5.gamedistribution.com/" ++ g ++ "/")
    | None =>
        match re_search match_game_id_field html with
        | Some g => Some ("https://html5.gamedistribution.com/" ++ g ++ "/")
        | None => None
        end
    end
  else
    option_map (fun e => attr e "src") (select_one soup (sel_sub "iframe" "src" "/embed/")).

(** Lines 314 to 451: the fallback to plain HTML scraping. *)
Definition generic_fallback (soup : Soup) (html url : string) : option GameRecord :=
  let name := generic_name soup url in
  let description := generic_description soup url in
  let image_url := generic_image soup url in
  let game_api_url := generic_api_url soup html url in
  if truth name && (truth description || truth image_url)
  then Some (mkGame (PStr (or_empty name)) (PStr (or_empty description))
                    (or_empty image_url) url (or_empty game_api_url))
  else None.

(** Lines 198 to 451, once the document is parsed. *)
Definition extract_from_soup (soup : Soup) (html url : string) : option GameRecord :=
  match (if is_poki url then poki_iframe soup url else None) with
  | Some r => Some r
  | None =>
      match (if negb (is_poki url) && negb (is_gamepix url)
             then try_except (next_data soup url) else None) with
      | Some r => Some r
      | None =>
          match (if is_gamepix url then gamepix_block soup url else None) with
          | Some r => Some r
          | None => generic_fallback soup html url
          end
      end
  end.

(** [extract_game_info(html, url)]; [html] is [None] or a string. *)
Definition extract_game_info (html : option string) (url : string)
    : result (option GameRecord) :=
  match html with
  | None => Ok None
  | Some h =>
      if nonempty h then
        match BeautifulSoup W h with
        | Some soup => Ok (extract_from_soup soup h url)
        | None => Raise
        end
      else Ok None
  end.

End Extractor.

(** ** scrape_website and main *)

(** What the list [games] of [scrape_website] holds: the rendering branch
    binds it to the anchors [soup.select] found (line 127 and following) and
    appends the extracted records to the same list (line 182). *)
Inductive item : Type :=
| Link (t : Tag)
| Rec (r : GameRecord).

(** [game.get('href', '')]: an anchor gives its attribute, a record
    dictionary has no such key. *)
Definition item_href (game : item) : string :=
  match game with
  | Link t => attr t "href"
  | Rec _ => EmptyString
  end.

(** [g is not None] *)
Definition is_not_None (g : item) : bool :=
  match g with
  | Link _ => true
  | Rec _ => true
  end.

(** [isinstance(g, dict)] *)
Definition is_record (g : item) : bool :=
  match g with
  | Link _ => false
  | Rec _ => true
  end.

(** Lines 463 to 465 of [save_to_csv] *)
Definition website_label (game : GameRecord) : string :=
  if contains "poki.com" (game_url game) then "Poki"
  else if contains "gamepix.com" (game_url game) then "GamePix"
  else "Game Distribution".

(** Lines 461 to 481 of [save_to_csv]: the rows written, one for each element
    of [games_data] that is a dictionary with a name, which every record is;
    a row is given by its record and its website label, the time stamp is
    left out. *)
Definition save_to_csv (games_data : list item) : list (GameRecord * string) :=
  flat_map
    (fun game =>
       match game with
       | Rec r => [(r, website_label r)]
       | Link _ => []
       end)
    games_data.

(** One turn of the batch loop of the rendering branch, kept for inspection:
    the value of [batch], and the URLs whose fetches [asyncio.gather] awaits
    together. *)
Record batch_log : Type := mkLog {
  lg_batch : list item;
  lg_requests : list string
}.

Section Orchestrator.

Variable W : World.

(** [fetch_page(session, url)]: exceptions are caught inside, so the call
    returns the body or [None]. *)
Definition fetch_page (url : string) : option string := http_get W url.

(** Lines 73 to 79 *)
Definition poki_links (soup : Soup) : list string :=
  flat_map
    (fun a =>
       let href := attr a "href" in
       if nonempty href && contains "/g/" href
       then [if startswith href "http" then href else urljoin W "https://poki.com" href]
       else [])
    (select soup (sel_sub "a" "href" "/g/")).

(** Lines 92 to 96; [extract_game_info] stands outside any [try] here. *)
Fixpoint extract_chunk (pairs : list (option string * string)) (games : list item)
    : result (list item) :=
  match pairs with
  | [] => Ok games
  | (html, link) :: rest =>
      if truth html then
        match extract_game_info W html link with
        | Ok (Some game_info) => extract_chunk rest (games ++ [Rec game_info])%list
        | Ok None => extract_chunk rest games
        | Raise => Raise
        | SysExit c => SysExit c
        end
      else extract_chunk rest games
  end.

(** Lines 85 to 97, over the values [i] of [range(0, len(game_links), 10)].
    The second component lists the chunks in the order they were taken; every
    link of a chunk is fetched, and [asyncio.gather] awaits them together. *)
Fixpoint poki_loop (game_links : list string) (starts : list nat)
    (games : list item) (log : list (list string))
    : result (list item) * list (list string) :=
  match starts with
  | [] => (Ok games, log)
  | i :: rest =>
      let chunk := slice game_links i (i + 10) in
      let chunk_results := map fetch_page chunk in
      let log' := (log ++ [chunk])%list in
      match extract_chunk (combine chunk_results chunk) games with
      | Ok games' => poki_loop game_links rest games' log'
      | Raise => (Raise, log')
      | SysExit c => (SysExit c, log')
      end
  end.

(** Lines 124 to 148 *)
Definition discover_links (soup : Soup) (url : string) : list Tag :=
  if is_poki url then
    list_or (select soup (sel_sub "a" "href" "/g/"))
   (list_or (select soup ".game-tile a")
   (list_or (select soup ".game-card a")
   (list_or (select soup "article.game-item a")
   (list_or (select soup (sel_sub "" "class" "GameTile" ++ " a"))
            (select soup (sel_sub "" "class" "game-wrapper" ++ " a"))))))
  else if is_gamepix url then
    list_or (select soup (sel_sub "a" "href" "/play/"))
   (list_or (select soup ".game-card a")
            (select soup (sel_sub "" "class" "game" ++ " a")))
  else
    list_or (select soup (sel_sub "a" "href" "/games/"))
   (list_or (select soup ".game-card a")
            (select soup (sel_sub "" "class" "game" ++ " a"))).

(** Lines 46 to 53: the URLs [process_game_batch] fetches, in task order. *)
Definition batch_requests (games : list item) (base_url : string) : list string :=
  flat_map
    (fun game =>
       let game_url := item_href game in
       if nonempty game_url
       then [if startswith game_url "http" then game_url else urljoin W base_url game_url]
       else [])
    games.

(** [process_game_batch(session, games, base_url)]: [asyncio.gather] returns
    the results in the order of the tasks. *)
Definition process_game_batch (games : list item) (base_url : string)
    : list (option string) :=
  map fetch_page (batch_requests games base_url).

(** Lines 168 to 173 *)
Definition site_base (url : string) : string :=
  if is_poki url then "https://poki.com"
  else if is_gamepix url then "https://www.gamepix.com"
  else "https://gamedistribution.com".

(** Lines 160 to 177: the calls [extract_game_info(html, game_url)] handed to
    the executor, in submission order. *)
Definition submissions (url : string) (responses : list (option string))
    (batch : list item) : list (string * string) :=
  flat_map
    (fun p =>
       let html := fst p in
       let game := snd p in
       if truth html then
         let game_url := item_href game in
         if nonempty game_url
         then [(or_empty html,
                if startswith game_url "http" then game_url
                else urljoin W (site_base url) game_url)]
         else []
       else [])
    (combine responses batch).

(** Lines 179 to 182: [future.result()] re-raises what the call raised, which
    ends the loop; the flag tells whether that happened. *)
Fixpoint collect (done : list (result (option GameRecord))) (games : list item)
    : list item * bool :=
  match done with
  | [] => (games, false)
  | Ok (Some r) :: rest => collect rest (games ++ [Rec r])%list
  | Ok None :: rest => collect rest games
  | _ :: _ => (games, true)
  end.

(** Lines 153 to 184, over the values [i] of [range(0, len(games), 10)],
    which is evaluated once, before the first append.  An exception leaves
    the loop for the [except] clause of line 186; [games] is returned as it
    stands. *)
Fixpoint render_loop (url : string) (starts : list nat) (games : list item)
    (log : list batch_log) : list item * list batch_log :=
  match starts with
  | [] => (games, log)
  | i :: rest =>
      let batch := slice games i (i + 10) in
      let responses := process_game_batch batch url in
      let futures :=
        map (fun s => extract_game_info W (Some (fst s)) (snd s))
            (submissions url responses batch) in
      let log' := (log ++ [mkLog batch (batch_requests batch url)])%list in
      match collect (as_completed W _ futures) games with
      | (games', true) => (games', log')
      | (games', false) => render_loop url rest games' log'
      end
  end.

(** [setup_driver()]: [sys.exit(1)] when Chrome does not start. *)
Definition setup_driver (url : string) : result unit :=
  if chrome W url then Ok tt else SysExit 1.

(** [scrape_website(url)] *)
Definition scrape_website (url : string) : result (list item) :=
  match fetch_page url with
  | Some html =>
      if nonempty html then
        match BeautifulSoup W html with
        | None => Raise
        | Some soup =>
            if is_poki url then
              let game_links := poki_links soup in
              fst (poki_loop game_links (range_step (length game_links) 10) [] [])
            else
              match setup_driver url with
              | Ok _ =>
                  match page_source W url with
                  | None => Ok []
                  | Some source =>
                      match BeautifulSoup W source with
                      | None => Ok []
                      | Some soup' =>
                          let games := map Link (discover_links soup' url) in
                          Ok (fst (render_loop url (range_step (length games) 10) games []))
                      end
                  end
              | Raise => Raise
              | SysExit c => SysExit c
              end
        end
      else Ok []
  | None => Ok []
  end.

(** Lines 490 to 494 *)
Definition websites : list string :=
  ["https://poki.com/en"; "https://gamedistribution.com/games/"; "https://www.gamepix.com/"].

(** How [main] ends: it runs to its end, after the listed calls of
    [scrape_website], with the argument of [save_to_csv] when there is one; or
    a [SystemExit] leaves it, which [asyncio.run] turns into the exit status of
    the process. *)
Inductive main_outcome : Type :=
| Completed (visited : list string) (saved : option (list item))
| Exited (visited : list string) (code : Z).

(** Lines 498 to 527 *)
Fixpoint main_loop (sites : list string) (all_games : list item)
    (visited : list string) : main_outcome :=
  match sites with
  | [] =>
      Completed visited
        (match all_games with [] => None | _ :: _ => Some all_games end)
  | website :: rest =>
      match scrape_website website with
      | Ok games =>
          main_loop rest
            (match games with
             | [] => all_games
             | _ :: _ => (all_games ++ filter is_not_None games)%list
             end)
            (visited ++ [website])%list
      | Raise => main_loop rest all_games (visited ++ [website])%list
      | SysExit c => Exited (visited ++ [website])%list c
      end
  end.

Definition main : main_outcome := main_loop websites [] [].

End Orchestrator.

(** ** Notions the properties are stated with *)


(** The game object of the embedded payload, lines 246 to 249. *)
Definition payload_game (W : World) (soup : Soup) : option pyval :=
  match find soup "script" "id" "__NEXT_DATA__" with
  | None => None
  | Some next_data_script =>
      s <- tag_string next_data_script ;;
      json_data <- json_loads W s ;;
      props <- py_get json_data "props" (PDict []) ;;
      pageProps <- py_get props "pageProps" (PDict []) ;;
      py_get pageProps "game" (PDict [])
  end.



(** The width an asset declares as the scan reads it:
    [asset.get('width', 0)] as a number. *)
Definition declared_width (asset : pyval) : option Z :=
  w <- py_get asset "width" (PInt 0) ;; as_number w.

(** The selector strategies of the rendering branch, in the order written in
    lines 127 to 148. *)
Definition strategy_chain (url : string) : list string :=
  if is_poki url then
    [sel_sub "a" "href" "/g/"; ".game-tile a"; ".game-card a"; "article.game-item a";
     sel_sub "" "class" "GameTile" ++ " a"; sel_sub "" "class" "game-wrapper" ++ " a"]
  else if is_gamepix url then
    [sel_sub "a" "href" "/play/"; ".game-card a"; sel_sub "" "class" "game" ++ " a"]
  else
    [sel_sub "a" "href" "/games/"; ".game-card a"; sel_sub "" "class" "game" ++ " a"].

(** The first list of a sequence that is not empty, the empty list when there
    is none. *)
Fixpoint first_nonempty {A : Type} (ls : list (list A)) : list A :=
  match ls with
  | [] => []
  | [] :: rest => first_nonempty rest
  | (x :: l) :: _ => x :: l
  end.

(** Line 100 is reached for [url]: the listing was fetched and parsed, and the
    site is not Poki. *)
Definition needs_driver (W : World) (url : string) : bool :=
  match http_get W url with
  | Some html =>
      nonempty html &&
      match BeautifulSoup W html with Some _ => true | None => false end &&
      negb (is_poki url)
  | None => false
  end.

(** The rendering session is needed for [url] and cannot be started. *)
Definition driver_fails (W : World) (url : string) : bool :=
  needs_driver W url && negb (chrome W url).

(** ** The scroll loop and the report of main *)

(** Lines 106 to 117.  [height_after k] is what
    [document.body.scrollHeight] reads once the page was scrolled [k] times;
    [budget] is [max_scroll_attempts - scroll_attempts] and [scrolls] counts
    the calls of [window.scrollTo].  The loop gives back the number of scrolls
    and the last height it kept. *)
Fixpoint scroll_loop (height_after : nat -> Z) (budget scrolls : nat) (last_height : Z)
    : nat * Z :=
  match budget with
  | O => (scrolls, last_height)
  | S budget' =>
      let new_height := height_after (S scrolls) in
      if (new_height =? last_height)%Z then (S scrolls, last_height)
      else scroll_loop height_after budget' (S scrolls) new_height
  end.

Definition scroll_to_load (height_after : nat -> Z) : nat * Z :=
  scroll_loop height_after 5 0 (height_after 0).


(** ** Further notions the properties are stated with *)

(** What one link of the static branch adds to [games] (lines 93 to 96). *)
Definition link_records (W : World) (link : string) : list item :=
  let html := fetch_page W link in
  if truth html then
    match extract_game_info W html link with
    | Ok (Some game_info) => [Rec game_info]
    | _ => []
    end
  else [].

(** The extraction of the page of [link] raises. *)
Definition link_raises (W : World) (link : string) : bool :=
  let html := fetch_page W link in
  truth html &&
  match extract_game_info W html link with
  | Raise => true
  | _ => false
  end.



(** What a seed URL contributes to [all_games]. *)
Definition site_games (W : World) (website : string) : list item :=
  match scrape_website W website with
  | Ok games => games
  | _ => []
  end.


(** ** Concrete documents and worlds

    Small pages and a table-driven world, on which the functions above are
    run. *)

Module Fixtures.

Definition no_soup : Soup := mkSoup (fun _ => []) (fun _ _ _ => None).

(** A document given by the answers to its queries; [finds] is keyed by
    [name#attribute=value]. *)
Definition soup_of (selects : list (string * list Tag)) (finds : list (string * Tag)) : Soup :=
  mkSoup
    (fun selector => match assoc selector selects with Some l => l | None => [] end)
    (fun tag key value => assoc (tag ++ "#" ++ key ++ "=" ++ value) finds).

(** [scheme://host] of an absolute URL: what stands before its third slash. *)
Fixpoint origin_from (slashes : nat) (s : string) : string :=
  match s with
  | EmptyString => EmptyString
  | String c s' =>
      if Ascii.eqb c "/" then
        match slashes with
        | O => EmptyString
        | S k => String c (origin_from k s')
        end
      else String c (origin_from slashes s')
  end.

(** [urljoin] on the references the examples use: a reference that starts
    with a slash replaces the path of the base. *)
Definition simple_urljoin (base url : string) : string :=
  if startswith url "/" then origin_from 2 base ++ url else base ++ url.

(** A world whose network, parser and JSON decoder are tables; the worker
    threads finish in submission order. *)
Definition table_world (pages : string -> option string) (docs : list (string * Soup))
    (payloads : list (string * pyval)) (chrome_starts : bool)
    (rendered : list (string * string)) : World :=
  mkWorld simple_urljoin
    (fun html => Some (match assoc html docs with Some s => s | None => no_soup end))
    (fun s => assoc s payloads)
    (fun _ => "<repr>")
    pages
    (fun _ => chrome_starts)
    (fun url => assoc url rendered)
    (fun _ l => l)
    (fun _ l => Permutation_refl l).

Definition anchor (href : string) : Tag := mkTag "a" [("href", href)] "play" (Some "play").
Definition bare_anchor : Tag := mkTag "a" [] "menu" (Some "menu").
Definition heading (text : string) : Tag := mkTag "h1" [] text (Some text).
Definition meta (key value content : string) : Tag :=
  mkTag "meta" [(key, value); ("content", content)] "" None.

(** A detail page of GamePix: [<h1>title</h1>] and a description. *)
Definition gamepix_detail (title about : string) : Soup :=
  soup_of [("h1", [heading title]);
           (sel_eq "meta" "name" "description", [meta "name" "description" about])] [].

(** *** A GamePix listing with one game *)

Definition gamepix_seed : string := "https://www.gamepix.com/".

Definition one_link_world : World :=
  table_world
    (fun url => assoc url [(gamepix_seed, "<listing>");
                           ("https://www.gamepix.com/play/tetris", "<tetris>")])
    [("<rendered>", soup_of [(sel_sub "a" "href" "/play/", [anchor "/play/tetris"])] []);
     ("<tetris>", gamepix_detail "Tetris" "Stack the blocks")]
    [] true [(gamepix_seed, "<rendered>")].

(** *** A GamePix listing whose first anchor has no href

    No anchor points below [/play/], so the second strategy, [.game-card a],
    supplies the links: an anchor without href and two games. *)

Definition skipped_link_world : World :=
  table_world
    (fun url => assoc url [(gamepix_seed, "<listing>");
                           ("https://www.gamepix.com/game/one", "<one>");
                           ("https://www.gamepix.com/game/two", "<two>")])
    [("<rendered>",
      soup_of [(".game-card a", [bare_anchor; anchor "/game/one"; anchor "/game/two"])] []);
     ("<one>", gamepix_detail "One" "The first game");
     ("<two>", gamepix_detail "Two" "The second game")]
    [] true [(gamepix_seed, "<rendered>")].

(** *** A detail page of Game Distribution whose payload has no title

    The page holds
    [<script id=__NEXT_DATA__>{props:{pageProps:{game:{objectID:abc123}}}}</script>]
    (JSON quotes left out here). *)

Definition q (s : string) : string := dq ++ s ++ dq.

Definition untitled_payload : string :=
  "{" ++ q "props" ++ ":{" ++ q "pageProps" ++ ":{" ++ q "game" ++ ":{"
      ++ q "objectID" ++ ":" ++ q "abc123" ++ "}}}}".

Definition gd_page (payload : string) : Soup :=
  soup_of [] [("script#id=__NEXT_DATA__",
               mkTag "script" [("id", "__NEXT_DATA__")] payload (Some payload))].

Definition game_payload (game : pyval) : pyval :=
  PDict [("props", PDict [("pageProps", PDict [("game", game)])])].

Definition untitled_url : string := "https://gamedistribution.com/games/untitled/".

Definition untitled_world : World :=
  table_world (fun _ => None)
    [("<untitled>", gd_page untitled_payload)]
    [(untitled_payload, game_payload (PDict [("objectID", PStr "abc123")]))]
    true [].

(** *** Assets of widths 200, 800 and 400, and an asset of width 0 *)

Definition asset (file : string) (width : Z) : pyval :=
  PDict [("name", PStr file); ("width", PInt width)].

Definition three_assets : list pyval :=
  [asset "small.jpg" 200; asset "large.jpg" 800; asset "medium.jpg" 400].

Definition flat_asset : pyval := asset "flat.jpg" 0.

(** *** Seed pages without games; Chrome starts or does not *)

Definition empty_site_world (chrome_starts : bool) : World :=
  table_world (fun url => if existsb (String.eqb url) websites then Some "<listing>" else None)
    [] [] chrome_starts
    [("https://gamedistribution.com/games/", "<rendered>"); (gamepix_seed, "<rendered>")].

(** *** A GamePix listing with 23 games, each of which has a detail page *)

Definition numbered (k : nat) : string := NilZero.string_of_uint (Nat.to_uint k).



(** *** A GamePix detail page whose heading and Open Graph title differ *)

Definition two_titles : Soup :=
  soup_of [("h1", [heading "Heading"]);
           (og "title", [meta "property" "og:title" "Open Graph title"]);
           (sel_eq "meta" "name" "description", [meta "name" "description" "About"])] [].

Definition two_titles_url : string := "https://www.gamepix.com/play/two-titles".

(** *** A world with no network, for running the extractor alone *)

Definition quiet_world : World := table_world (fun _ => None) [] [] true [].

(** *** A Poki detail page without the player frame *)


Definition poki_plain_url : string := "https://poki.com/en/g/plain-game".

(** *** A GamePix listing that only the last strategy matches *)

Definition fallback_listing : Soup :=
  soup_of [(sel_sub "" "class" "game" ++ " a", [anchor "/g1"; anchor "/g2"])] [].

(** *** A Poki listing with three games

    The page of the first has the player frame, the second is not found and
    the third has no name. *)

Definition poki_seed : string := "https://poki.com/en".

Definition poki_frame_page (title src : string) : Soup :=
  soup_of [("h1", [heading title])]
          [("iframe#id=game-element",
            mkTag "iframe" [("id", "game-element"); ("src", src)] "" None)].

Definition poki_world : World :=
  table_world
    (fun url => assoc url [(poki_seed, "<poki listing>");
                           ("https://poki.com/en/g/alpha", "<alpha>");
                           ("https://poki.com/en/g/gamma", "<gamma>")])
    [("<poki listing>",
      soup_of [(sel_sub "a" "href" "/g/",
                [anchor "/en/g/alpha"; anchor "/en/g/beta";
                 anchor "https://poki.com/en/g/gamma"])] []);
     ("<alpha>", poki_frame_page "Alpha" "/embed/alpha")]
    [] false [].

Definition alpha_record : GameRecord :=
  mkGame (PStr "Alpha") (PStr "") "" "https://poki.com/en/g/alpha"
         "https://poki.com/embed/alpha".

(** *** A world whose worker threads finish in reverse order *)


(** *** A GamePix page whose Open Graph title is empty *)

Definition empty_og_title : Soup :=
  soup_of [(og "title", [meta "property" "og:title" ""]);
           ("h1", [heading "Heading"]);
           (sel_eq "meta" "name" "description", [meta "name" "description" "About"])] [].

(** *** A page with a heading, a description and an embedded payload *)

Definition mixed_page : Soup :=
  soup_of [("h1", [heading "Heading"]);
           (sel_eq "meta" "name" "description", [meta "name" "description" "About"])]
          [("script#id=__NEXT_DATA__",
            mkTag "script" [("id", "__NEXT_DATA__")] untitled_payload
                  (Some untitled_payload))].

(** *** A payload whose only asset has a width and no name *)

Definition nameless_asset : pyval := PDict [("width", PInt 300)].

Definition nameless_game : pyval :=
  PDict [("title", PStr "Nameless"); ("objectID", PStr "abc123");
         ("assets", PList [nameless_asset])].

Definition nameless_world : World :=
  table_world (fun _ => None) [] [("<payload>", game_payload nameless_game)] true [].

Definition nameless_page : Soup :=
  soup_of [("h1", [heading "Heading"]);
           (sel_eq "meta" "name" "description", [meta "name" "description" "About"])]
          [("script#id=__NEXT_DATA__",
            mkTag "script" [("id", "__NEXT_DATA__")] "<payload>" (Some "<payload>"))].

(** *** A Poki page whose image is given by a relative URL *)

Definition relative_image_page : Soup :=
  soup_of [(og "title", [meta "property" "og:title" "Plain game"]);
           (og "image", [meta "property" "og:image" "/img/plain.png"])] [].

End Fixtures.

(** * Properties *)

(** ** Python helpers *)


Lemma truth_Some (o : option string) :
  truth o = true -> exists s, o = Some s /\ nonempty s = true.
Proof. destruct o as [s|]; simpl; [eauto | discriminate]. Qed.

Lemma bind_Some {A B : Type} (o : option A) (f : A -> option B) (b : B) :
  bind o f = Some b -> exists a, o = Some a /\ f a = Some b.
Proof. destruct o as [a|]; simpl; [eauto | discriminate]. Qed.

(** Opens the [bind]s of a hypothesis that says a fallible block succeeded. *)
Ltac open_binds H :=
  repeat
    (let a := fresh "v" in
     let E := fresh "E" in
     apply bind_Some in H; destruct H as (a & E & H)).

Lemma list_or_first {A : Type} (a b : list A) : a <> [] -> list_or a b = a.
Proof. destruct a; [congruence | reflexivity]. Qed.

Lemma list_or_next {A : Type} (b : list A) : list_or [] b = b.
Proof. reflexivity. Qed.

(** ** The record extractor *)

Section ExtractorFacts.

Variable W : World.

(** *** Fallback chains of selectors *)

(** A chain resolves to a non-empty value exactly when one of its selectors
    finds an element whose value is non-empty. *)
Lemma first_match_resolves value soup selectors acc :
  truth acc = false ->
  truth (first_match value (fun x => x) soup selectors acc) = true <->
  exists selector elem,
    In selector selectors /\ select_one soup selector = Some elem /\
    nonempty (value elem) = true.
Proof.
  revert acc. induction selectors as [|selector rest IH]; intros acc Hacc; simpl.
  - rewrite Hacc. split; [discriminate | intros (? & ? & [] & _)].
  - destruct (select_one soup selector) as [elem|] eqn:E.
    + destruct (nonempty (value elem)) eqn:N.
      * simpl. rewrite N. split; [|reflexivity]. intros _.
        exists selector, elem. auto.
      * rewrite (IH (Some (value elem)) N). split.
        -- intros (s' & e' & Hin & Hs & Hv). exists s', e'. auto.
        -- intros (s' & e' & [<-|Hin] & Hs & Hv).
           ++ rewrite E in Hs. injection Hs as <-. congruence.
           ++ exists s', e'. auto.
    + rewrite (IH acc Hacc). split.
      * intros (s' & e' & Hin & Hs & Hv). exists s', e'. auto.
      * intros (s' & e' & [<-|Hin] & Hs & Hv).
        -- congruence.
        -- exists s', e'. auto.
Qed.

(** X12: the value a chain resolves to is the one of the first selector that finds
    an element with a non-empty value. *)
Lemma first_match_first value on_hit soup pre selector post elem acc :
  select_one soup selector = Some elem ->
  nonempty (value elem) = true ->
  (forall s e, In s pre -> select_one soup s = Some e -> nonempty (value e) = false) ->
  first_match value on_hit soup (pre ++ selector :: post)%list acc
  = Some (on_hit (value elem)).
Proof.
  intros Hs Hv. revert acc.
  induction pre as [|p pre IH]; intros acc Hpre; simpl.
  - rewrite Hs, Hv. reflexivity.
  - destruct (select_one soup p) as [e|] eqn:E.
    + rewrite (Hpre p e (or_introl eq_refl) E). apply IH.
      intros s e' Hin. apply Hpre. right. exact Hin.
    + apply IH. intros s e' Hin. apply Hpre. right. exact Hin.
Qed.

(** *** Which URL a record carries *)

Lemma poki_iframe_game_url soup url r :
  poki_iframe W soup url = Some r -> game_url r = url.
Proof.
  unfold poki_iframe. cbv zeta. intros H.
  destruct (find soup "iframe" "id" "game-element"); [|discriminate].
  destruct (truth (assoc "src" (tag_attrs t))); [|discriminate].
  destruct (truth _); [|discriminate].
  injection H as <-. reflexivity.
Qed.

Lemma next_data_game_url soup url r :
  next_data W soup url = Some (Some r) -> game_url r = url.
Proof.
  unfold next_data. intros H.
  destruct (find soup "script" "id" "__NEXT_DATA__"); [|discriminate].
  open_binds H.
  destruct (truthy v3); [|discriminate].
  open_binds H.
  destruct (truthy v9); [|discriminate].
  injection H as <-. reflexivity.
Qed.

Lemma gamepix_block_game_url soup url r :
  gamepix_block soup url = Some r -> game_url r = url.
Proof.
  unfold gamepix_block. cbv zeta. intros H.
  destruct (truth _ && _); [|discriminate].
  injection H as <-. reflexivity.
Qed.

Lemma generic_fallback_game_url soup html url r :
  generic_fallback W soup html url = Some r -> game_url r = url.
Proof.
  unfold generic_fallback. cbv zeta. intros H.
  destruct (truth _ && _); [|discriminate].
  injection H as <-. reflexivity.
Qed.

(** The four places a record can come from, in the order they are tried. *)
Lemma extract_from_soup_cases soup html url r :
  extract_from_soup W soup html url = Some r ->
  (is_poki url = true /\ poki_iframe W soup url = Some r) \/
  (is_poki url = false /\ is_gamepix url = false /\
   next_data W soup url = Some (Some r)) \/
  (is_gamepix url = true /\ gamepix_block soup url = Some r) \/
  generic_fallback W soup html url = Some r.
Proof.
  unfold extract_from_soup. intros H.
  destruct (is_poki url) eqn:P; simpl in H.
  - destruct (poki_iframe W soup url) eqn:F.
    + left. split; [reflexivity | exact H].
    + destruct (is_gamepix url) eqn:G.
      * destruct (gamepix_block soup url) eqn:B; auto.
      * auto.
  - destruct (is_gamepix url) eqn:G; simpl in H.
    + destruct (gamepix_block soup url) eqn:B; auto.
    + destruct (next_data W soup url) as [[r'|]|] eqn:N; simpl in H; auto.
      right. left. repeat split. congruence.
Qed.

Lemma extract_from_soup_game_url soup html url r :
  extract_from_soup W soup html url = Some r -> game_url r = url.
Proof.
  intros H. apply extract_from_soup_cases in H.
  destruct H as [[_ H]|[(_ & _ & H)|[[_ H]|H]]].
  - eapply poki_iframe_game_url; eassumption.
  - eapply next_data_game_url; eassumption.
  - eapply gamepix_block_game_url; eassumption.
  - eapply generic_fallback_game_url; eassumption.
Qed.

(** C9: whenever [extract_game_info] emits a record, the record's [game_url]
    is the [url] argument, on each of the four emission paths. *)
Theorem extract_game_info_keeps_url html url r :
  extract_game_info W html url = Ok (Some r) -> game_url r = url.
Proof.
  unfold extract_game_info. intros H.
  destruct html as [h|]; [|discriminate].
  destruct (nonempty h); [|discriminate].
  destruct (BeautifulSoup W h) as [soup|]; [|discriminate].
  injection H as H. eapply extract_from_soup_game_url; eassumption.
Qed.

(** *** Absent or empty HTML *)

(** C10: for every URL, [extract_game_info] returns no record when [html] is
    [None] or the empty string; the parser is not consulted (the result is the
    same in every world, also one whose parser raises) and nothing is
    raised. *)
Theorem extract_game_info_without_html url :
  extract_game_info W None url = Ok None /\
  extract_game_info W (Some EmptyString) url = Ok None.
Proof. split; reflexivity. Qed.

(** *** Names of emitted records *)

Lemma poki_iframe_name soup url r :
  poki_iframe W soup url = Some r -> truthy (name r) = true.
Proof.
  unfold poki_iframe. cbv zeta. intros H.
  destruct (find soup "iframe" "id" "game-element"); [|discriminate].
  destruct (truth (assoc "src" (tag_attrs t))); [|discriminate].
  destruct (truth _) eqn:N; [|discriminate].
  apply truth_Some in N. destruct N as (s & E & N). rewrite E in H.
  injection H as <-. exact N.
Qed.

Lemma gamepix_block_complete soup url r :
  gamepix_block soup url = Some r ->
  truthy (name r) = true /\
  (truthy (description r) = true \/ nonempty (image_url r) = true).
Proof.
  unfold gamepix_block. cbv zeta. intros H.
  destruct (truth _ && _) eqn:C; [|discriminate].
  injection H as <-. cbn [name description image_url].
  apply andb_true_iff in C. destruct C as [N D].
  apply orb_true_iff in D.
  apply truth_Some in N. destruct N as (s & -> & N). split; [exact N|].
  destruct D as [D|D]; apply truth_Some in D; destruct D as (x & -> & D); auto.
Qed.

Lemma generic_fallback_complete soup html url r :
  generic_fallback W soup html url = Some r ->
  truthy (name r) = true /\
  (truthy (description r) = true \/ nonempty (image_url r) = true).
Proof.
  unfold generic_fallback. cbv zeta. intros H.
  destruct (truth _ && _) eqn:C; [|discriminate].
  injection H as <-. cbn [name description image_url].
  apply andb_true_iff in C. destruct C as [N D].
  apply orb_true_iff in D.
  apply truth_Some in N. destruct N as (s & -> & N). split; [exact N|].
  destruct D as [D|D]; apply truth_Some in D; destruct D as (x & -> & D); auto.
Qed.

(** X13: what holds of every emitted record: outside the embedded-JSON path its
    name is non-empty, and outside the two specialised paths it also has a
    description or an image. *)
Lemma extract_from_soup_emits soup html url r :
  extract_from_soup W soup html url = Some r ->
  next_data W soup url = Some (Some r) \/
  (truthy (name r) = true /\
   (poki_iframe W soup url = Some r \/
    truthy (description r) = true \/ nonempty (image_url r) = true)).
Proof.
  intros H. apply extract_from_soup_cases in H.
  destruct H as [[_ H]|[(_ & _ & H)|[[_ H]|H]]].
  - right. split; [eapply poki_iframe_name; eassumption | auto].
  - auto.
  - right. apply gamepix_block_complete in H. tauto.
  - right. apply generic_fallback_complete in H. tauto.
Qed.

(** *** Pages without a specialised signal *)





(** *** The scan for the widest asset *)

Lemma py_get_item v k d x :
  py_get v k d = Some x ->
  py_item v k = Some x \/ (py_item v k = None /\ x = d).
Proof.
  destruct v; simpl; try discriminate.
  destruct (assoc k d0); intros H; injection H as <-; auto.
Qed.

(** Assets that declare no more than the running maximum change nothing. *)
Lemma scan_assets_no_update assets image m res :
  (forall b w, In b assets -> declared_width b = Some w -> (w <= m)%Z) ->
  scan_assets W assets image m = Some res -> res = (image, m).
Proof.
  induction assets as [|a rest IH]; simpl; intros Hle H.
  - congruence.
  - apply bind_Some in H. destruct H as (w & Ew & H).
    apply bind_Some in H. destruct H as (n & En & H).
    assert (Hn : (n <= m)%Z).
    { apply (Hle a); [auto|]. unfold declared_width. rewrite Ew. exact En. }
    destruct (n >? m)%Z eqn:C; [apply Z.gtb_lt in C; lia|].
    apply IH; [|exact H].
    intros b w' Hb. apply Hle. right. exact Hb.
Qed.

(** Assets narrower than [bound] leave the running maximum below it. *)
Lemma scan_assets_below pre rest bound image m res :
  (forall b w, In b pre -> declared_width b = Some w -> (w < bound)%Z) ->
  (m < bound)%Z ->
  scan_assets W (pre ++ rest) image m = Some res ->
  exists image' m', (m' < bound)%Z /\ (m <= m')%Z /\
    scan_assets W rest image' m' = Some res.
Proof.
  revert image m. induction pre as [|a pre IH]; intros image m Hlt Hm H.
  - exists image, m. repeat split; [assumption | lia | assumption].
  - simpl in H.
    apply bind_Some in H. destruct H as (w & Ew & H).
    apply bind_Some in H. destruct H as (n & En & H).
    assert (Hn : (n < bound)%Z).
    { apply (Hlt a); [left; reflexivity|]. unfold declared_width. rewrite Ew. exact En. }
    destruct (n >? m)%Z eqn:C.
    + apply Z.gtb_lt in C.
      open_binds H.
      assert (v0 = w).
      { destruct (py_get_item _ _ _ _ Ew) as [E'|[E' _]]; congruence. }
      subst v0. assert (v1 = n) by congruence. subst v1.
      destruct (IH _ n (fun b w' Hb => Hlt b w' (or_intror Hb)) Hn H)
        as (image' & m' & ? & ? & ?).
      exists image', m'. repeat split; [assumption | lia | assumption].
    + rewrite Z.gtb_ltb in C. apply Z.ltb_ge in C.
      destruct (IH _ m (fun b w' Hb => Hlt b w' (or_intror Hb)) Hm H)
        as (image' & m' & ? & ? & ?).
      exists image', m'. repeat split; assumption.
Qed.

(** The first asset of positive width that no earlier asset reaches and no
    later asset exceeds gives the image. *)
Lemma scan_assets_first_widest pre a post w res :
  scan_assets W (pre ++ a :: post) EmptyString 0 = Some res ->
  declared_width a = Some w -> (0 < w)%Z ->
  (forall b w', In b pre -> declared_width b = Some w' -> (w' < w)%Z) ->
  (forall b w', In b post -> declared_width b = Some w' -> (w' <= w)%Z) ->
  exists nm, py_item a "name" = Some nm /\
    res = ("https://img.gamedistribution.com/" ++ py_str (repr W) nm, w).
Proof.
  intros H Hw Hpos Hpre Hpost.
  destruct (scan_assets_below _ _ _ _ _ _ Hpre Hpos H) as (image' & m' & Hm' & _ & H').
  simpl in H'. unfold declared_width in Hw.
  apply bind_Some in Hw. destruct Hw as (v & Ev & Hv).
  rewrite Ev in H'. cbn [bind] in H'. rewrite Hv in H'. cbn [bind] in H'.
  assert (C : (w >? m')%Z = true) by (apply Z.gtb_lt; lia).
  rewrite C in H'. open_binds H'.
  assert (v1 = v).
  { destruct (py_get_item _ _ _ _ Ev) as [E'|[E' _]]; congruence. }
  subst v1. assert (v2 = w) by congruence. subst v2.
  exists v0. split; [assumption|].
  eapply scan_assets_no_update; eassumption.
Qed.

(** C8, as the code has it: when the scan of the assets completes and one
    asset declares a positive width strictly larger than the width of every
    other asset, the image URL is the image base followed by that asset's
    name; when no asset declares a positive width the image URL stays
    empty. *)
Theorem scan_assets_selects_widest pre a post w res :
  scan_assets W (pre ++ a :: post) EmptyString 0 = Some res ->
  declared_width a = Some w ->
  (forall b w', In b (pre ++ post) -> declared_width b = Some w' -> (w' < w)%Z) ->
  ((0 < w)%Z ->
   exists nm, py_item a "name" = Some nm /\
     fst res = "https://img.gamedistribution.com/" ++ py_str (repr W) nm) /\
  ((w <= 0)%Z -> fst res = EmptyString).
Proof.
  intros H Hw Hothers. split; intros Hsign.
  - destruct (scan_assets_first_widest pre a post w res H Hw Hsign) as (nm & Hn & ->).
    + intros b w' Hb. apply Hothers, in_or_app. auto.
    + intros b w' Hb Hd. apply Z.lt_le_incl. apply (Hothers b); [|assumption].
      apply in_or_app. auto.
    + exists nm. split; [assumption | reflexivity].
  - assert (Hall : forall b w', In b (pre ++ a :: post) ->
                     declared_width b = Some w' -> (w' <= 0)%Z).
    { intros b w' Hb Hd. apply in_app_or in Hb. cbn [In] in Hb.
      destruct Hb as [Hb|[<-|Hb]].
      - specialize (Hothers b w' (in_or_app _ _ _ (or_introl Hb)) Hd). lia.
      - rewrite Hw in Hd. injection Hd as <-. exact Hsign.
      - specialize (Hothers b w' (in_or_app _ _ _ (or_intror Hb)) Hd). lia. }
    rewrite (scan_assets_no_update _ _ _ _ Hall H). reflexivity.
Qed.

End ExtractorFacts.

(** ** Link discovery *)

Lemma first_nonempty_skips {A : Type} (pre : list (list A)) (x : list A) post :
  (forall l, In l pre -> l = []) -> x <> [] -> first_nonempty (pre ++ x :: post)%list = x.
Proof.
  induction pre as [|l pre IH]; intros Hpre Hx; simpl.
  - destruct x; [congruence | reflexivity].
  - rewrite (Hpre l (or_introl eq_refl)). apply IH; [|assumption].
    intros l' Hl'. apply Hpre. right. exact Hl'.
Qed.

Lemma first_nonempty_none {A : Type} (ls : list (list A)) :
  (forall l, In l ls -> l = []) -> first_nonempty ls = [].
Proof.
  induction ls as [|l ls IH]; intros H; simpl; [reflexivity|].
  rewrite (H l (or_introl eq_refl)). apply IH.
  intros l' Hl'. apply H. right. exact Hl'.
Qed.

(** The nested [or] of lines 127 to 148 walks the strategy chain. *)
Lemma discover_links_chain soup url :
  discover_links soup url = first_nonempty (map (select soup) (strategy_chain url)).
Proof.
  unfold discover_links, strategy_chain.
  destruct (is_poki url); [|destruct (is_gamepix url)]; cbn [map];
    repeat match goal with
           | |- context [list_or (select soup ?s) _] =>
               destruct (select soup s); cbn [list_or first_nonempty]
           end;
    try reflexivity;
    match goal with
    | |- select soup ?s = _ => destruct (select soup s); reflexivity
    end.
Qed.

(** C7: the strategies of a site are tried in the order of its chain and the
    first one with a match is used alone: when every earlier strategy matches
    nothing and strategy [s] matches something, the discovered links are
    exactly the matches of [s]. *)
Theorem discover_links_first_strategy soup url pre s post :
  strategy_chain url = (pre ++ s :: post)%list ->
  (forall s', In s' pre -> select soup s' = []) ->
  select soup s <> [] ->
  discover_links soup url = select soup s.
Proof.
  intros Hchain Hpre Hs.
  rewrite discover_links_chain, Hchain, map_app. cbn [map].
  apply first_nonempty_skips; [|assumption].
  intros l Hl. apply in_map_iff in Hl. destruct Hl as (s' & <- & Hs').
  apply Hpre. exact Hs'.
Qed.

Lemma discover_links_no_match soup url :
  (forall s, In s (strategy_chain url) -> select soup s = []) ->
  discover_links soup url = [].
Proof.
  intros H. rewrite discover_links_chain. apply first_nonempty_none.
  intros l Hl. apply in_map_iff in Hl. destruct Hl as (s & <- & Hs). auto.
Qed.

(** ** Batches *)

Lemma range_step_length n : length (range_step n 10) = (n + 9) / 10.
Proof. unfold range_step. rewrite length_map, length_seq. reflexivity. Qed.

Lemma slice_length {A : Type} (l : list A) i :
  length (slice l i (i + 10)) = Nat.min 10 (length l - i).
Proof.
  unfold slice. rewrite length_firstn, length_skipn.
  replace (i + 10 - i) with 10 by lia. reflexivity.
Qed.

(** Consecutive slices of ten put together give the list back. *)
Lemma chunks_concat {A : Type} (c : nat) : forall (l : list A) (from : nat),
  length l <= (from + c) * 10 ->
  (concat (map (fun i => slice l i (i + 10)) (map (fun k => k * 10) (seq from c)))
   = skipn (from * 10) l)%list.
Proof.
  induction c as [|c IH]; intros l from Hlen; cbn [seq map concat].
  - symmetry. apply skipn_all2. lia.
  - rewrite IH by lia. unfold slice.
    replace (from * 10 + 10 - from * 10) with 10 by lia.
    replace (S from * 10) with (10 + from * 10) by lia.
    rewrite <- skipn_skipn. apply firstn_skipn.
Qed.

Lemma chunks_partition {A : Type} (l : list A) :
  concat (map (fun i => slice l i (i + 10)) (range_step (length l) 10)) = l.
Proof.
  unfold range_step. rewrite chunks_concat; [reflexivity|].
  cbn [Nat.sub]. pose proof (Nat.div_mod_eq (length l + 9) 10) as E.
  pose proof (Nat.mod_upper_bound (length l + 9) 10). lia.
Qed.

(** The members of [range(0, n, 10)] and the length of the slice each one
    starts. *)
Lemma range_step_members n i :
  In i (range_step n 10) <-> exists k, i = k * 10 /\ k * 10 < n.
Proof.
  unfold range_step. rewrite in_map_iff. cbn [Nat.sub].
  pose proof (Nat.div_mod_eq (n + 9) 10) as E.
  pose proof (Nat.mod_upper_bound (n + 9) 10).
  split.
  - intros (k & <- & Hk). apply in_seq in Hk. exists k. split; [reflexivity | lia].
  - intros (k & -> & Hk). exists k. split; [reflexivity|]. apply in_seq. lia.
Qed.

Lemma chunk_sizes {A : Type} (l : list A) i :
  In i (range_step (length l) 10) ->
  (i + 10 <= length l -> length (slice l i (i + 10)) = 10) /\
  (length l < i + 10 ->
   length (slice l i (i + 10)) = length l mod 10 /\ length l mod 10 <> 0).
Proof.
  intros Hi. apply range_step_members in Hi. destruct Hi as (k & -> & Hk).
  rewrite slice_length. split; intros H.
  - lia.
  - pose proof (Nat.div_mod_eq (length l) 10) as E.
    pose proof (Nat.mod_upper_bound (length l) 10).
    assert (length l / 10 = k) by nia. subst k. lia.
Qed.

Section OrchestratorFacts.

Variable W : World.

(** *** The static branch *)

(** The chunks of the static branch are the slices at the values of the
    range, one after the other. *)
Lemma poki_loop_log game_links starts games log res log' :
  poki_loop W game_links starts games log = (Ok res, log') ->
  log' = (log ++ map (fun i => slice game_links i (i + 10)) starts)%list.
Proof.
  revert games log. induction starts as [|i rest IH]; intros games log H; simpl in H.
  - injection H as _ <-. symmetry. apply app_nil_r.
  - destruct (extract_chunk W _ games) as [games'| |c]; try discriminate.
    apply IH in H. rewrite H, <- app_assoc. reflexivity.
Qed.

(** X3: in the static branch the links are cut into consecutive chunks: there are
    [ceil(n/10)] of them, they give the links back when put together, each
    holds ten links except a last one of [n mod 10], and each holds at most
    ten. *)
Lemma poki_loop_chunks game_links res log :
  poki_loop W game_links (range_step (length game_links) 10) [] [] = (Ok res, log) ->
  length log = (length game_links + 9) / 10 /\
  concat log = game_links /\
  (forall chunk, In chunk log -> length chunk <= 10) /\
  (forall k, k < length game_links / 10 -> length (nth k log []) = 10) /\
  (length game_links mod 10 <> 0 ->
   length (nth (length game_links / 10) log []) = length game_links mod 10).
Proof.
  intros H. apply poki_loop_log in H. cbn [app] in H. subst log.
  set (n := length game_links).
  assert (Hnth : forall k, k < (n + 9) / 10 ->
            nth k (map (fun i => slice game_links i (i + 10)) (range_step n 10)) []
            = slice game_links (k * 10) (k * 10 + 10)).
  { intros k Hk. unfold range_step. rewrite map_map.
    rewrite (nth_indep _ [] (slice game_links (0 * 10) (0 * 10 + 10))).
    - rewrite (map_nth (fun x => slice game_links (x * 10) (x * 10 + 10))).
      rewrite seq_nth by exact Hk. reflexivity.
    - rewrite length_map, length_seq. exact Hk. }
  pose proof (Nat.div_mod_eq n 10) as E.
  pose proof (Nat.mod_upper_bound n 10 ltac:(lia)) as Hm.
  pose proof (Nat.div_mod_eq (n + 9) 10) as E9.
  pose proof (Nat.mod_upper_bound (n + 9) 10 ltac:(lia)) as Hm9.
  repeat split.
  - rewrite length_map. apply range_step_length.
  - apply chunks_partition.
  - intros chunk Hc. apply in_map_iff in Hc. destruct Hc as (i & <- & _).
    rewrite slice_length. lia.
  - intros k Hk. rewrite Hnth by lia. rewrite slice_length. fold n. lia.
  - intros Hr. rewrite Hnth by lia. rewrite slice_length. fold n. lia.
Qed.

(** In the static branch every page is paired with the link it was fetched
    for. *)
Lemma static_pairing (chunk : list string) html link :
  In (html, link) (combine (map (fetch_page W) chunk) chunk) ->
  html = fetch_page W link.
Proof.
  induction chunk as [|l chunk IH]; simpl; [intros []|].
  intros [E|H]; [injection E as <- <-; reflexivity | auto].
Qed.

(** *** The rendering branch *)

Lemma batch_requests_length games base_url :
  length (batch_requests W games base_url) <= length games.
Proof.
  unfold batch_requests. induction games as [|g games IH]; simpl; [lia|].
  destruct (nonempty (item_href g)); simpl; lia.
Qed.

(** Every batch of the rendering branch holds at most ten elements and asks
    for at most ten detail pages at once, and there is at most one batch per
    value of the range. *)
Lemma render_loop_bounds url starts games log :
  (forall b, In b log ->
     length (lg_batch b) <= 10 /\ length (lg_requests b) <= 10) ->
  let out := snd (render_loop W url starts games log) in
  (forall b, In b out ->
     length (lg_batch b) <= 10 /\ length (lg_requests b) <= 10) /\
  length out <= length log + length starts.
Proof.
  revert games log. induction starts as [|i rest IH]; intros games log Hlog; simpl.
  - split; [exact Hlog | lia].
  - assert (Hlog' : forall b,
              In b (log ++ [mkLog (slice games i (i + 10))
                                  (batch_requests W (slice games i (i + 10)) url)])%list ->
              length (lg_batch b) <= 10 /\ length (lg_requests b) <= 10).
    { intros b Hb. apply in_app_or in Hb. destruct Hb as [Hb|[<-|[]]]; [auto|].
      cbn [lg_batch lg_requests].
      pose proof (batch_requests_length (slice games i (i + 10)) url).
      pose proof (slice_length games i). lia. }
    destruct (collect _ games) as [games' [|]]; cbn [snd].
    + split; [exact Hlog'|]. rewrite length_app. simpl. lia.
    + specialize (IH games' _ Hlog'). cbv zeta in IH.
      destruct IH as [IH1 IH2]. split; [exact IH1|].
      rewrite length_app in IH2. simpl in IH2. lia.
Qed.

(** [collect] only appends records. *)
Lemma collect_appends done games :
  exists recs, fst (collect done games) = (games ++ map Rec recs)%list.
Proof.
  revert games. induction done as [|d done IH]; intros games; simpl.
  - exists []. symmetry. apply app_nil_r.
  - destruct d as [[r|]| |c]; simpl.
    + destruct (IH (games ++ [Rec r])%list) as [recs E].
      exists (r :: recs). rewrite E, <- app_assoc. reflexivity.
    + apply IH.
    + exists []. symmetry. apply app_nil_r.
    + exists []. symmetry. apply app_nil_r.
Qed.







(** *** What ends the run *)

Lemma extract_chunk_returns pairs games c :
  extract_chunk W pairs games <> SysExit c.
Proof.
  revert games. induction pairs as [|[html link] rest IH]; intros games; simpl.
  - discriminate.
  - destruct (truth html); [|apply IH].
    unfold extract_game_info.
    destruct html as [h|]; [|apply IH].
    destruct (nonempty h); [|apply IH].
    destruct (BeautifulSoup W h) as [soup|]; [|discriminate].
    destruct (extract_from_soup W soup h link); apply IH.
Qed.

Lemma poki_loop_returns game_links starts games log c :
  fst (poki_loop W game_links starts games log) <> SysExit c.
Proof.
  revert games log. induction starts as [|i rest IH]; intros games log; simpl.
  - discriminate.
  - destruct (extract_chunk W _ games) as [games'| |c'] eqn:E; simpl.
    + apply IH.
    + discriminate.
    + exfalso. exact (extract_chunk_returns _ _ _ E).
Qed.

Lemma scrape_website_exits url :
  driver_fails W url = true -> scrape_website W url = SysExit 1.
Proof.
  unfold driver_fails, needs_driver, scrape_website, fetch_page, setup_driver.
  intros H. apply andb_true_iff in H. destruct H as [H C].
  destruct (http_get W url) as [html|]; [|discriminate].
  apply andb_true_iff in H. destruct H as [H P].
  apply andb_true_iff in H. destruct H as [N B].
  rewrite N. destruct (BeautifulSoup W html); [|discriminate].
  apply negb_true_iff in P. rewrite P.
  apply negb_true_iff in C. rewrite C. reflexivity.
Qed.

Lemma scrape_website_goes_on url :
  driver_fails W url = false ->
  scrape_website W url = Raise \/ exists games, scrape_website W url = Ok games.
Proof.
  unfold driver_fails, needs_driver, scrape_website, fetch_page, setup_driver.
  intros H.
  destruct (http_get W url) as [html|]; [|eauto].
  destruct (nonempty html); [|eauto].
  destruct (BeautifulSoup W html) as [soup|]; [|auto].
  destruct (is_poki url).
  - match goal with
    | |- context [poki_loop W ?l ?s ?g ?lg] =>
        pose proof (poki_loop_returns l s g lg) as R;
        destruct (fst (poki_loop W l s g lg)) as [games| |c]
    end; [eauto | auto | exfalso; exact (R c eq_refl)].
  - cbn [andb negb] in H. apply negb_false_iff in H. rewrite H.
    destruct (page_source W url) as [source|]; [|eauto].
    destruct (BeautifulSoup W source); eauto.
Qed.

Lemma main_loop_completes sites all_games visited :
  (forall s, In s sites -> driver_fails W s = false) ->
  exists saved,
    main_loop W sites all_games visited = Completed (visited ++ sites)%list saved.
Proof.
  revert all_games visited.
  induction sites as [|s sites IH]; intros all_games visited H; simpl.
  - rewrite app_nil_r. eauto.
  - assert (Hs : forall s', In s' sites -> driver_fails W s' = false)
      by (intros s' Hs'; apply H; right; exact Hs').
    replace (visited ++ s :: sites)%list with ((visited ++ [s]) ++ sites)%list
      by (rewrite <- app_assoc; reflexivity).
    destruct (scrape_website_goes_on s (H s (or_introl eq_refl))) as [E|[games E]];
      rewrite E; apply IH; exact Hs.
Qed.

Lemma main_loop_exits pre s post all_games visited :
  (forall s', In s' pre -> driver_fails W s' = false) ->
  driver_fails W s = true ->
  main_loop W (pre ++ s :: post)%list all_games visited
  = Exited (visited ++ pre ++ [s])%list 1.
Proof.
  revert all_games visited.
  induction pre as [|p pre IH]; intros all_games visited Hpre Hs; simpl.
  - rewrite (scrape_website_exits _ Hs). reflexivity.
  - assert (Hp : forall s', In s' pre -> driver_fails W s' = false)
      by (intros s' Hs'; apply Hpre; right; exact Hs').
    replace (visited ++ p :: pre ++ [s])%list with ((visited ++ [p]) ++ pre ++ [s])%list
      by (rewrite <- app_assoc; reflexivity).
    destruct (scrape_website_goes_on p (Hpre p (or_introl eq_refl))) as [E|[games E]];
      rewrite E; apply IH; assumption.
Qed.

(** C4, as the code has it: when the rendering session a seed URL needs
    cannot be started, [setup_driver] exits with status 1 and nothing catches
    it: the run ends there, after the seed URLs up to that one, and the
    remaining seed URLs are not scraped; when no seed URL meets that failure,
    every seed URL is scraped and [main] runs to its end, whatever else went
    wrong. *)
Theorem driver_failure_ends_run :
  (forall pre s post,
      websites = (pre ++ s :: post)%list ->
      (forall s', In s' pre -> driver_fails W s' = false) ->
      driver_fails W s = true ->
      main W = Exited (pre ++ [s])%list 1) /\
  ((forall s, In s websites -> driver_fails W s = false) ->
   exists saved, main W = Completed websites saved).
Proof.
  unfold main. split.
  - intros pre s post E Hpre Hs. rewrite E.
    apply (main_loop_exits pre s post [] [] Hpre Hs).
  - intros H. apply (main_loop_completes websites [] [] H).
Qed.

End OrchestratorFacts.

(** ** The functions at work on concrete pages *)

Import Fixtures.

(** C1, where the code departs from it: for the GamePix seed whose rendered
    listing holds one game link, [scrape_website] returns a list of two
    elements, the anchor that was discovered and then the record extracted
    from its page; the anchor is no record.  The filter of [main] keeps both,
    and [save_to_csv] writes one row for the two elements. *)
Theorem rendered_result_holds_anchor :
  let games :=
    [Link (anchor "/play/tetris");
     Rec (mkGame (PStr "Tetris") (PStr "Stack the blocks") EmptyString
                 "https://www.gamepix.com/play/tetris" EmptyString)] in
  scrape_website one_link_world gamepix_seed = Ok games /\
  map is_record games = [false; true] /\
  filter is_not_None games = games /\
  length (save_to_csv games) = 1.
Proof. vm_compute. repeat split. Qed.

(** C2, where the code departs from it: the batch holds an anchor without
    href and the links of the games one and two; [process_game_batch] skips
    the first, so the page of game one is paired with the anchor without href
    and dropped, and the page of game two is paired with the link of game
    one: the only record comes from the page of game two and carries the URL
    of game one. *)
Theorem skipped_href_shifts_pairing :
  process_game_batch skipped_link_world
    [Link bare_anchor; Link (anchor "/game/one"); Link (anchor "/game/two")]
    gamepix_seed = [Some "<one>"; Some "<two>"] /\
  scrape_website skipped_link_world gamepix_seed =
  Ok [Link bare_anchor; Link (anchor "/game/one"); Link (anchor "/game/two");
      Rec (mkGame (PStr "Two") (PStr "The second game") EmptyString
                  "https://www.gamepix.com/game/one" EmptyString)].
Proof. split; vm_compute; reflexivity. Qed.

(** C3, where the code departs from it: a Game Distribution page whose
    embedded payload has a game object with an identifier and no title makes
    [extract_game_info] emit a record whose name is the empty string. *)
Theorem payload_without_title_emits :
  extract_game_info untitled_world (Some "<untitled>") untitled_url =
  Ok (Some (mkGame (PStr EmptyString) (PStr EmptyString) EmptyString untitled_url
                   "https://html5.gamedistribution.com/abc123/")).
Proof. vm_compute. reflexivity. Qed.


(** C4 as stated fails: the driver does not start for the second seed URL,
    and the run ends with status 1 without scraping the third. *)
Lemma driver_failure_skips_gamepix :
  driver_fails (empty_site_world false) "https://gamedistribution.com/games/" = true /\
  In "https://www.gamepix.com/" websites /\
  main (empty_site_world false) =
  Exited ["https://poki.com/en"; "https://gamedistribution.com/games/"] 1.
Proof.
  split; [vm_compute; reflexivity|].
  split; [simpl; auto | vm_compute; reflexivity].
Qed.

Lemma driver_failure_ends_run_witness :
  main (empty_site_world false) =
  Exited (["https://poki.com/en"] ++ ["https://gamedistribution.com/games/"])%list 1 /\
  exists saved, main (empty_site_world true) = Completed websites saved.
Proof.
  split.
  - apply (proj1 (driver_failure_ends_run (empty_site_world false))
             ["https://poki.com/en"] "https://gamedistribution.com/games/"
             ["https://www.gamepix.com/"]).
    + reflexivity.
    + intros s' [<-|[]]. vm_compute. reflexivity.
    + vm_compute. reflexivity.
  - apply (proj2 (driver_failure_ends_run (empty_site_world true))).
    intros s [<-|[<-|[<-|[]]]]; vm_compute; reflexivity.
Defined.



Lemma discover_links_first_strategy_witness :
  select fallback_listing (sel_sub "a" "href" "/play/") = [] /\
  select fallback_listing ".game-card a" = [] /\
  discover_links fallback_listing gamepix_seed = [anchor "/g1"; anchor "/g2"].
Proof.
  split; [reflexivity | split; [reflexivity|]].
  apply (discover_links_first_strategy fallback_listing gamepix_seed
           [sel_sub "a" "href" "/play/"; ".game-card a"]
           (sel_sub "" "class" "game" ++ " a") []).
  - reflexivity.
  - intros s' [<-|[<-|[]]]; reflexivity.
  - vm_compute. discriminate.
Defined.

(** C8 as stated fails: the only asset of the list declares width 0, so it
    is the widest, and the scan leaves the image URL empty. *)
Lemma widest_asset_of_width_zero_is_skipped :
  (forall b, In b [flat_asset] -> b = flat_asset) /\
  declared_width flat_asset = Some 0%Z /\
  py_item flat_asset "name" = Some (PStr "flat.jpg") /\
  scan_assets quiet_world [flat_asset] EmptyString 0 = Some (EmptyString, 0%Z).
Proof.
  repeat split.
  intros b [<-|[]]. reflexivity.
Qed.

Lemma scan_assets_selects_widest_witness :
  scan_assets quiet_world three_assets EmptyString 0
  = Some ("https://img.gamedistribution.com/large.jpg", 800%Z) /\
  exists nm,
    py_item (asset "large.jpg" 800) "name" = Some nm /\
    fst ("https://img.gamedistribution.com/large.jpg", 800%Z)
    = "https://img.gamedistribution.com/" ++ py_str (repr quiet_world) nm.
Proof.
  split; [reflexivity|].
  assert (Hothers : forall b w',
            In b ([asset "small.jpg" 200] ++ [asset "medium.jpg" 400])%list ->
            declared_width b = Some w' -> (w' < 800)%Z).
  { intros b w' [<-|[<-|[]]] E; vm_compute in E; injection E as <-; lia. }
  apply (proj1 (scan_assets_selects_widest quiet_world
                  [asset "small.jpg" 200] (asset "large.jpg" 800)
                  [asset "medium.jpg" 400] 800 _ eq_refl eq_refl Hothers)).
  lia.
Defined.

Lemma extract_game_info_keeps_url_witness :
  extract_game_info one_link_world (Some "<tetris>") "https://www.gamepix.com/play/tetris"
  = Ok (Some (mkGame (PStr "Tetris") (PStr "Stack the blocks") EmptyString
                     "https://www.gamepix.com/play/tetris" EmptyString)) /\
  game_url (mkGame (PStr "Tetris") (PStr "Stack the blocks") EmptyString
                   "https://www.gamepix.com/play/tetris" EmptyString)
  = "https://www.gamepix.com/play/tetris".
Proof.
  split; [reflexivity|].
  apply (extract_game_info_keeps_url one_link_world (Some "<tetris>")).
  reflexivity.
Defined.

(** * Further properties *)

(** ** The static branch *)

Section StaticBranch.

Variable W : World.

Lemma extract_game_info_returns html url c :
  extract_game_info W html url <> SysExit c.
Proof.
  unfold extract_game_info.
  destruct html as [h|]; [|discriminate].
  destruct (nonempty h); [|discriminate].
  destruct (BeautifulSoup W h); discriminate.
Qed.

Lemma emitted_record_url html url r :
  extract_game_info W html url = Ok (Some r) -> game_url r = url.
Proof.
  unfold extract_game_info.
  destruct html as [h|]; [|discriminate].
  destruct (nonempty h); [|discriminate].
  destruct (BeautifulSoup W h) as [soup|]; [|discriminate].
  intros H. injection H as H. eapply extract_from_soup_game_url; eassumption.
Qed.

(** One chunk: the first extraction that raises ends it, otherwise every
    link adds its record, if it has one. *)
Lemma extract_chunk_spec chunk games :
  extract_chunk W (combine (map (fetch_page W) chunk) chunk) games =
  if existsb (link_raises W) chunk then Raise
  else Ok (games ++ flat_map (link_records W) chunk)%list.
Proof.
  revert games. induction chunk as [|link chunk IH]; intros games; simpl.
  - rewrite app_nil_r. reflexivity.
  - unfold link_raises at 1, link_records at 1. cbv zeta.
    destruct (truth (fetch_page W link)); cbn [andb orb app].
    + destruct (extract_game_info W (fetch_page W link) link) as [[r|]| |c] eqn:E;
        cbn [orb app].
      * rewrite IH. destruct (existsb _ chunk); [reflexivity|].
        rewrite <- app_assoc. reflexivity.
      * apply IH.
      * reflexivity.
      * exfalso. exact (extract_game_info_returns _ _ _ E).
    + apply IH.
Qed.

Lemma poki_loop_spec game_links starts games log :
  fst (poki_loop W game_links starts games log) =
  let seen := concat (map (fun i => slice game_links i (i + 10)) starts) in
  if existsb (link_raises W) seen then Raise
  else Ok (games ++ flat_map (link_records W) seen)%list.
Proof.
  cbv zeta. revert games log.
  induction starts as [|i rest IH]; intros games log; simpl.
  - rewrite app_nil_r. reflexivity.
  - rewrite extract_chunk_spec, existsb_app, flat_map_app.
    destruct (existsb (link_raises W) (slice game_links i (i + 10))); cbn [orb fst].
    + reflexivity.
    + rewrite IH. destruct (existsb _ _); [reflexivity|].
      rewrite <- app_assoc. reflexivity.
Qed.

Lemma poki_result game_links :
  fst (poki_loop W game_links (range_step (length game_links) 10) [] []) =
  if existsb (link_raises W) game_links then Raise
  else Ok (flat_map (link_records W) game_links).
Proof. rewrite poki_loop_spec. cbv zeta. rewrite chunks_partition. reflexivity. Qed.


(** X2: every element [scrape_website] returns for a Poki seed is a record
    that was extracted from the page fetched at the record's own [game_url],
    and that URL is one of the links discovered on the listing. *)
Theorem poki_records_match_their_pages url res g :
  is_poki url = true ->
  scrape_website W url = Ok res ->
  In g res ->
  exists r html soup,
    g = Rec r /\
    http_get W url = Some html /\ BeautifulSoup W html = Some soup /\
    In (game_url r) (poki_links W soup) /\
    extract_game_info W (fetch_page W (game_url r)) (game_url r) = Ok (Some r).
Proof.
  intros P H Hg. unfold scrape_website, fetch_page in H.
  destruct (http_get W url) as [html|] eqn:F; [|injection H as <-; destruct Hg].
  destruct (nonempty html); [|injection H as <-; destruct Hg].
  destruct (BeautifulSoup W html) as [soup|] eqn:B; [|discriminate].
  rewrite P, poki_result in H.
  destruct (existsb _ _); [discriminate|]. injection H as <-.
  apply in_flat_map in Hg. destruct Hg as (link & Hl & Hg).
  unfold link_records in Hg. cbv zeta in Hg.
  destruct (truth (fetch_page W link)); [|destruct Hg].
  destruct (extract_game_info W (fetch_page W link) link) as [[r|]| |c] eqn:E;
    cbn [In] in Hg; try contradiction.
  destruct Hg as [<-|[]]. pose proof (emitted_record_url _ _ _ E) as U.
  exists r, html, soup. rewrite U. auto.
Qed.

End StaticBranch.


Lemma poki_records_match_their_pages_witness :
  exists r html soup,
    Rec Fixtures.alpha_record = Rec r /\
    http_get Fixtures.poki_world Fixtures.poki_seed = Some html /\
    BeautifulSoup Fixtures.poki_world html = Some soup /\
    In (game_url r) (poki_links Fixtures.poki_world soup) /\
    extract_game_info Fixtures.poki_world
      (fetch_page Fixtures.poki_world (game_url r)) (game_url r) = Ok (Some r).
Proof.
  apply (poki_records_match_their_pages Fixtures.poki_world Fixtures.poki_seed
           [Rec Fixtures.alpha_record]).
  - reflexivity.
  - reflexivity.
  - left. reflexivity.
Defined.

(** ** The rendering branch *)

Section RenderingBranch.

Variable W : World.

(** X4: whatever the rendered listing holds, the rendering branch runs at
    most [ceil(n/10)] batches for [n] discovered elements, every batch holds
    at most ten elements, and no batch asks for more than ten detail pages at
    once. *)
Theorem render_batches_bounded url games :
  let out := snd (render_loop W url (range_step (length games) 10) games []) in
  length out <= (length games + 9) / 10 /\
  forall b, In b out -> length (lg_batch b) <= 10 /\ length (lg_requests b) <= 10.
Proof.
  cbv zeta.
  destruct (render_loop_bounds W url (range_step (length games) 10) games [])
    as [Hb Hl]; [intros b []|].
  cbv zeta in Hb, Hl. rewrite range_step_length in Hl. simpl in Hl.
  split; [exact Hl | exact Hb].
Qed.


End RenderingBranch.




(** ** main and save_to_csv *)

Section Aggregation.

Variable W : World.

Lemma filter_is_not_None games : filter is_not_None games = games.
Proof.
  induction games as [|g games IH]; [reflexivity|].
  simpl. destruct g; simpl; rewrite IH; reflexivity.
Qed.

Lemma main_loop_spec sites all_games visited v saved :
  main_loop W sites all_games visited = Completed v saved ->
  v = (visited ++ sites)%list /\
  saved = match (all_games ++ concat (map (site_games W) sites))%list with
          | [] => None
          | g :: l => Some (g :: l)
          end.
Proof.
  revert all_games visited.
  induction sites as [|s sites IH]; intros all_games visited H; simpl in H.
  - injection H as <- <-. simpl. rewrite !app_nil_r. split; [reflexivity|].
    destruct all_games; reflexivity.
  - cbn [map concat]. unfold site_games at 1.
    destruct (scrape_website W s) as [games| |c]; [| |discriminate].
    + apply IH in H. destruct H as [-> ->].
      rewrite <- app_assoc. split; [reflexivity|].
      destruct games as [|g games]; [reflexivity|].
      rewrite filter_is_not_None, <- app_assoc. reflexivity.
    + apply IH in H. destruct H as [-> ->].
      rewrite <- app_assoc. split; reflexivity.
Qed.

(** X8: when [main] runs to its end it has scraped every seed URL in the
    listed order, and what it hands to [save_to_csv] is the concatenation, in
    that order, of what [scrape_website] returned for each seed URL, a seed
    whose scrape raised adding nothing; nothing is dropped or deduplicated,
    and nothing is saved when that concatenation is empty. *)
Theorem main_concatenates v saved :
  main W = Completed v saved ->
  v = websites /\
  saved = match concat (map (site_games W) websites) with
          | [] => None
          | g :: l => Some (g :: l)
          end.
Proof. intros H. apply main_loop_spec in H. exact H. Qed.

End Aggregation.

Lemma main_concatenates_witness :
  websites = websites /\
  Some [Link (Fixtures.anchor "/play/tetris");
        Rec (mkGame (PStr "Tetris") (PStr "Stack the blocks") EmptyString
                    "https://www.gamepix.com/play/tetris" EmptyString)]
  = match concat (map (site_games Fixtures.one_link_world) websites) with
    | [] => None
    | g :: l => Some (g :: l)
    end.
Proof.
  apply (main_concatenates Fixtures.one_link_world).
  vm_compute. reflexivity.
Defined.




Lemma filter_length_le {A : Type} (f g : A -> bool) (l : list A) :
  (forall x, In x l -> f x = true -> g x = true) ->
  length (filter f l) <= length (filter g l).
Proof.
  induction l as [|x l IH]; intros H; [reflexivity|]. simpl.
  assert (IH' : length (filter f l) <= length (filter g l))
    by (apply IH; intros y Hy; apply H; right; exact Hy).
  destruct (f x) eqn:F.
  - rewrite (H x (or_introl eq_refl) F). simpl. lia.
  - destruct (g x); simpl; lia.
Qed.


(** ** More on extract_game_info *)

Section ExtractorCoverage.

Variable W : World.

(** X11: the website label [save_to_csv] gives a record that
    [extract_game_info] emitted for [url] is the site [extract_game_info]
    dispatched on: Poki when [url] holds [poki.com], else GamePix when it
    holds [gamepix.com], else Game Distribution. *)
Theorem label_follows_dispatch html url r :
  extract_game_info W html url = Ok (Some r) ->
  website_label r =
  if is_poki url then "Poki"
  else if is_gamepix url then "GamePix"
  else "Game Distribution".
Proof.
  intros H. apply emitted_record_url in H.
  unfold website_label, is_poki, is_gamepix. rewrite H. reflexivity.
Qed.

(** X14: the embedded payload is read for Game Distribution only: on a URL
    that holds [poki.com] or [gamepix.com] the result of the extraction does
    not depend on what [json.loads] would return, nor on anything else than
    the document and [urljoin]. *)
Theorem payload_ignored_off_game_distribution (W' : World) soup html url :
  urljoin W' = urljoin W ->
  is_poki url = true \/ is_gamepix url = true ->
  extract_from_soup W' soup html url = extract_from_soup W soup html url.
Proof.
  intros Hu Hsite.
  assert (Hskip : negb (is_poki url) && negb (is_gamepix url) = false)
    by (destruct Hsite as [-> | ->]; [reflexivity | apply andb_false_r]).
  unfold extract_from_soup, poki_iframe, generic_fallback, generic_image,
    absolute_image.
  rewrite Hskip, Hu. reflexivity.
Qed.

(** *** Assets *)

Lemma py_get_dict d k x : exists v, py_get (PDict d) k x = Some v.
Proof. simpl. eauto. Qed.

Lemma scan_assets_nameless pre a post w :
  (forall b w', In b pre -> declared_width b = Some w' -> (w' < w)%Z) ->
  declared_width a = Some w -> (0 < w)%Z ->
  py_item a "name" = None ->
  scan_assets W (pre ++ a :: post) EmptyString 0 = None.
Proof.
  intros Hpre Hw Hpos Hname.
  destruct (scan_assets W (pre ++ a :: post) EmptyString 0) as [res|] eqn:H;
    [exfalso | reflexivity].
  destruct (scan_assets_below W _ _ _ _ _ _ Hpre Hpos H) as (image' & m' & Hm' & _ & H').
  simpl in H'. unfold declared_width in Hw.
  apply bind_Some in Hw. destruct Hw as (v & Ev & Hv).
  rewrite Ev in H'. cbn [bind] in H'. rewrite Hv in H'. cbn [bind] in H'.
  assert (C : (w >? m')%Z = true) by (apply Z.gtb_lt; lia).
  rewrite C, Hname in H'. discriminate.
Qed.

(** X15: on a Game Distribution page, an asset without name that declares a
    positive width above the width of every asset before it makes the
    embedded-JSON path raise, so the page is extracted by the generic chain
    although its payload has a game object, whatever identifier it has. *)
Theorem nameless_asset_drops_payload soup html url game_data pre a post w :
  is_poki url = false -> is_gamepix url = false ->
  payload_game W soup = Some game_data ->
  py_get game_data "assets" (PList []) = Some (PList (pre ++ a :: post)) ->
  (forall b w', In b pre -> declared_width b = Some w' -> (w' < w)%Z) ->
  declared_width a = Some w -> (0 < w)%Z ->
  py_item a "name" = None ->
  extract_from_soup W soup html url = generic_fallback W soup html url.
Proof.
  intros P G Hp Ha Hpre Hw Hpos Hname.
  assert (N : try_except (next_data W soup url) = None).
  { unfold payload_game in Hp. unfold next_data.
    destruct (find soup "script" "id" "__NEXT_DATA__") as [script|]; [|discriminate].
    apply bind_Some in Hp. destruct Hp as (s & -> & Hp).
    apply bind_Some in Hp. destruct Hp as (json_data & E1 & Hp).
    apply bind_Some in Hp. destruct Hp as (props & E2 & Hp).
    apply bind_Some in Hp. destruct Hp as (pageProps & E3 & Hp).
    cbn [bind]. rewrite E1. cbn [bind]. rewrite E2. cbn [bind].
    rewrite E3. cbn [bind]. rewrite Hp. cbn [bind].
    destruct (truthy game_data); [|reflexivity].
    destruct game_data as [| | | | |d]; try discriminate.
    destruct (py_get_dict d "title" (PStr "")) as [t ->]. cbn [bind].
    destruct (py_get_dict d "description" (PStr "")) as [ds ->]. cbn [bind].
    rewrite Ha. cbn [bind py_iter].
    rewrite (scan_assets_nameless pre a post w Hpre Hw Hpos Hname). reflexivity. }
  unfold extract_from_soup. rewrite P, G, N. reflexivity.
Qed.

(** X16: when several assets declare the same largest width, and it is
    positive, the scan keeps the first of them: the image URL is made from the
    name of the earlier asset. *)
Theorem scan_assets_tie_keeps_first pre a mid b post w res :
  scan_assets W (pre ++ a :: mid ++ b :: post) EmptyString 0 = Some res ->
  declared_width a = Some w -> declared_width b = Some w -> (0 < w)%Z ->
  (forall c w', In c pre -> declared_width c = Some w' -> (w' < w)%Z) ->
  (forall c w', In c (mid ++ post) -> declared_width c = Some w' -> (w' <= w)%Z) ->
  exists nm, py_item a "name" = Some nm /\
    fst res = "https://img.gamedistribution.com/" ++ py_str (repr W) nm.
Proof.
  intros H Ha Hb Hpos Hpre Hrest.
  destruct (scan_assets_first_widest W pre a (mid ++ b :: post) w res H Ha Hpos Hpre)
    as (nm & Hn & ->).
  - intros c w' Hc Hd. apply in_app_or in Hc. cbn [In] in Hc.
    destruct Hc as [Hc|[<-|Hc]].
    + apply (Hrest c); [apply in_or_app; auto | exact Hd].
    + rewrite Hb in Hd. injection Hd as <-. lia.
    + apply (Hrest c); [apply in_or_app; auto | exact Hd].
  - exists nm. split; [exact Hn | reflexivity].
Qed.

(** *** Images of the generic chain *)

Lemma first_match_origin value on_hit soup selectors acc y :
  first_match value on_hit soup selectors acc = Some y ->
  acc = Some y \/
  exists selector elem,
    In selector selectors /\ select_one soup selector = Some elem /\
    ((nonempty (value elem) = false /\ y = value elem) \/
     (nonempty (value elem) = true /\ y = on_hit (value elem))).
Proof.
  revert acc. induction selectors as [|selector rest IH]; intros acc H; simpl in H.
  - auto.
  - destruct (select_one soup selector) as [elem|] eqn:E.
    + destruct (nonempty (value elem)) eqn:N.
      * injection H as <-. right. exists selector, elem.
        split; [left; reflexivity|]. split; [exact E|]. right. split; [exact N | reflexivity].
      * apply IH in H. destruct H as [H|(s' & e' & Hin & Hs & Hy)].
        -- injection H as <-. right. exists selector, elem.
           split; [left; reflexivity|]. split; [exact E|]. left. split; [exact N | reflexivity].
        -- right. exists s', e'. split; [right; exact Hin|]. split; assumption.
    + apply IH in H. destruct H as [H|(s' & e' & Hin & Hs & Hy)]; [left; exact H|].
      right. exists s', e'. split; [right; exact Hin|]. split; assumption.
Qed.

(** X17: a non-empty image URL of the generic chain comes from an element
    one of the image selectors found: it is the element's [content], or else
    its [src], kept as it is when it starts with [http] and otherwise joined
    to a base, which is the one of GamePix on a GamePix URL and the one of
    Game Distribution on every other URL, a Poki URL included. *)
Theorem generic_image_base soup url img :
  generic_image W soup url = Some img -> nonempty img = true ->
  exists selector elem,
    In selector (img_selectors url) /\ select_one soup selector = Some elem /\
    nonempty (content_or_src elem) = true /\
    img = if startswith (content_or_src elem) "http" then content_or_src elem
          else urljoin W (if is_gamepix url then "https://www.gamepix.com"
                          else "https://gamedistribution.com")
                       (content_or_src elem).
Proof.
  unfold generic_image. intros H N.
  apply first_match_origin in H.
  destruct H as [H|(selector & e & Hin & Hs & [[Hn ->]|[Hn ->]])].
  - discriminate.
  - congruence.
  - exists selector, e. repeat split; try assumption.
    unfold absolute_image.
    destruct (startswith (content_or_src e) "http"); [reflexivity|].
    destruct (is_gamepix url); reflexivity.
Qed.

End ExtractorCoverage.

(** ** The scroll loop *)

Lemma scroll_loop_spec height_after budget : forall scrolls,
  0 < budget ->
  let out := scroll_loop height_after budget scrolls (height_after scrolls) in
  scrolls < fst out <= scrolls + budget /\
  snd out = height_after (fst out) /\
  (forall j, scrolls < j < fst out -> height_after j <> height_after (j - 1)) /\
  (fst out < scrolls + budget -> height_after (fst out) = height_after (fst out - 1)).
Proof.
  induction budget as [|budget IH]; intros scrolls Hb; [lia|].
  cbv zeta. cbn [scroll_loop].
  destruct (height_after (S scrolls) =? height_after scrolls)%Z eqn:E.
  - apply Z.eqb_eq in E. cbn [fst snd].
    replace (S scrolls - 1) with scrolls by lia.
    repeat split; try lia; try congruence.
  - apply Z.eqb_neq in E. destruct budget as [|budget].
    + cbn [scroll_loop fst snd]. repeat split; try lia.
    + specialize (IH (S scrolls) ltac:(lia)). cbv zeta in IH.
      destruct IH as (H1 & H2 & H3 & H4).
      split; [lia|]. split; [exact H2|]. split.
      * intros j Hj. destruct (Nat.eq_dec j (S scrolls)) as [->|Hne].
        -- replace (S scrolls - 1) with scrolls by lia. exact E.
        -- apply H3. lia.
      * intros Hlt. apply H4. lia.
Qed.

(** X18: the scroll loop scrolls at least once and at most five times, keeps
    the height read after its last scroll, never stops while the height is
    still changing before the fifth scroll, and when it stops before the
    fifth scroll the last scroll left the height as it was. *)
Theorem scroll_to_load_bounded height_after :
  let out := scroll_to_load height_after in
  1 <= fst out <= 5 /\
  snd out = height_after (fst out) /\
  (forall j, 1 <= j < fst out -> height_after j <> height_after (j - 1)) /\
  (fst out < 5 -> height_after (fst out) = height_after (fst out - 1)).
Proof.
  cbv zeta. unfold scroll_to_load.
  destruct (scroll_loop_spec height_after 5 0 ltac:(lia)) as (H1 & H2 & H3 & H4).
  split; [lia|]. split; [exact H2|]. split; [|exact H4].
  intros j Hj. apply H3. lia.
Qed.

(** ** The identifier of Game Distribution in the generic chain *)

Lemma after_literal_spec p : forall s r, after_literal p s = Some r -> s = p ++ r.
Proof.
  induction p as [|a p IH]; intros s r H; simpl in H.
  - injection H as <-. reflexivity.
  - destruct s as [|b s]; [discriminate|].
    destruct (Ascii.eqb a b) eqn:E; [|discriminate].
    apply Ascii.eqb_eq in E. subst b. simpl. f_equal. apply IH. exact H.
Qed.

Lemma take_hex_spec n : forall s h rest,
  take_hex n s = Some (h, rest) ->
  s = h ++ rest /\ String.length h = n /\
  forallb is_hex (list_ascii_of_string h) = true.
Proof.
  induction n as [|n IH]; intros s h rest H; simpl in H.
  - injection H as <- <-. repeat split.
  - destruct s as [|c s]; [discriminate|].
    destruct (is_hex c) eqn:C; [|discriminate].
    destruct (take_hex n s) as [[h' rest']|] eqn:T; [|discriminate].
    injection H as <- <-. destruct (IH _ _ _ T) as (-> & L & A).
    simpl. rewrite C, L, A. repeat split.
Qed.

Lemma re_search_sound anchored : forall s g,
  re_search anchored s = Some g ->
  exists before rest, s = before ++ rest /\ anchored rest = Some g.
Proof.
  induction s as [|c s IH]; intros g H; simpl in H.
  - destruct (anchored EmptyString) eqn:E; [|discriminate].
    injection H as <-. exists EmptyString, EmptyString. auto.
  - destruct (anchored (String c s)) eqn:E.
    + injection H as <-. exists EmptyString, (String c s). auto.
    + destruct (IH _ H) as (before & rest & -> & Hr).
      exists (String c before), rest. auto.
Qed.

Lemma prefix_app p : forall r, String.prefix p (p ++ r) = true.
Proof.
  induction p as [|a p IH]; intros r; simpl.
  - destruct r; reflexivity.
  - destruct (ascii_dec a a) as [_|N]; [apply IH | congruence].
Qed.

Lemma contains_app needle before : forall rest,
  contains needle (before ++ needle ++ rest) = true.
Proof.
  induction before as [|c before IH]; intros rest.
  - change (EmptyString ++ needle ++ rest) with (needle ++ rest).
    pose proof (prefix_app needle rest) as P.
    destruct (needle ++ rest); cbn [contains]; rewrite P; reflexivity.
  - simpl. rewrite IH. apply orb_true_r.
Qed.

Lemma lstrip_suffix s : exists blanks, s = blanks ++ lstrip s.
Proof.
  induction s as [|c s [blanks IH]]; simpl.
  - exists EmptyString. reflexivity.
  - destruct (is_space c).
    + exists (String c blanks). simpl. rewrite <- IH. reflexivity.
    + exists EmptyString. reflexivity.
Qed.

Lemma append_assoc (a b c : string) : (a ++ b) ++ c = a ++ b ++ c.
Proof. induction a as [|x a IH]; simpl; [reflexivity | rewrite IH; reflexivity]. Qed.

Lemma match_games_id_sound s g :
  match_games_id s = Some g ->
  String.length g = 32 /\ forallb is_hex (list_ascii_of_string g) = true /\
  exists rest, s = "/games/" ++ g ++ rest.
Proof.
  unfold match_games_id. intros H.
  destruct (after_literal "/games/" s) as [r|] eqn:A; [|discriminate].
  destruct (take_hex 32 r) as [[h rest]|] eqn:T; [|discriminate].
  injection H as <-. apply after_literal_spec in A.
  destruct (take_hex_spec _ _ _ _ T) as (-> & L & X).
  repeat split; try assumption. exists rest. exact A.
Qed.

Lemma match_game_id_field_sound s g :
  match_game_id_field s = Some g ->
  String.length g = 32 /\ forallb is_hex (list_ascii_of_string g) = true /\
  exists before rest, s = "game_id" ++ before ++ g ++ rest.
Proof.
  unfold match_game_id_field. intros H.
  destruct (after_literal "game_id" s) as [r|] eqn:A; [|discriminate].
  destruct (after_literal ":" (lstrip r)) as [r1|] eqn:B; [|discriminate].
  destruct (lstrip r1) as [|q r2] eqn:C; [discriminate|].
  destruct (is_quote q); [|discriminate].
  destruct (take_hex 32 r2) as [[h [|q' tail]]|] eqn:T; try discriminate.
  destruct (is_quote q'); [|discriminate]. injection H as <-.
  apply after_literal_spec in A, B.
  destruct (take_hex_spec _ _ _ _ T) as (-> & L & X).
  destruct (lstrip_suffix r) as [b1 E1]. destruct (lstrip_suffix r1) as [b2 E2].
  repeat split; try assumption.
  exists (b1 ++ ":" ++ b2 ++ String q EmptyString), (String q' tail).
  rewrite A, E1, B, E2, C. rewrite !append_assoc. reflexivity.
Qed.

(** X19: on a URL of neither Poki nor GamePix, a playable URL found by the
    generic chain is the embed base followed by 32 characters of [a-f0-9] and
    a slash; the 32 characters stand in the page URL right after [/games/],
    or, when the page URL has no such identifier, in the HTML after
    [game_id]. *)
Theorem generic_api_url_identifier soup html url api :
  is_poki url = false -> is_gamepix url = false ->
  generic_api_url soup html url = Some api ->
  exists g,
    api = "https://html5.gamedistribution.com/" ++ g ++ "/" /\
    String.length g = 32 /\
    forallb is_hex (list_ascii_of_string g) = true /\
    (contains ("/games/" ++ g) url = true \/
     (re_search match_games_id url = None /\
      exists before middle rest, html = before ++ "game_id" ++ middle ++ g ++ rest)).
Proof.
  unfold generic_api_url. intros P G H. rewrite P, G in H. cbn [negb] in H.
  destruct (re_search match_games_id url) as [g|] eqn:R.
  - injection H as <-. apply re_search_sound in R.
    destruct R as (before & rest & -> & R).
    apply match_games_id_sound in R. destruct R as (L & X & tail & ->).
    exists g. repeat split; try assumption. left.
    assert (E : before ++ "/games/" ++ g ++ tail = before ++ ("/games/" ++ g) ++ tail)
      by (rewrite (append_assoc "/games/" g tail); reflexivity).
    rewrite E. apply contains_app.
  - destruct (re_search match_game_id_field html) as [g|] eqn:R'; [|discriminate].
    injection H as <-. apply re_search_sound in R'.
    destruct R' as (before & rest & -> & R').
    apply match_game_id_field_sound in R'. destruct R' as (L & X & middle & tail & ->).
    exists g. repeat split; try assumption. right. split; [reflexivity|].
    exists before, middle, tail. reflexivity.
Qed.

(** ** The properties above on concrete pages *)

Lemma poki_loop_chunks_witness :
  let links := map Fixtures.numbered (seq 0 23) in
  let log := snd (poki_loop Fixtures.quiet_world links (range_step 23 10) [] []) in
  length log = (length links + 9) / 10 /\
  concat log = links /\
  (forall chunk, In chunk log -> length chunk <= 10) /\
  (forall k, k < length links / 10 -> length (nth k log []) = 10) /\
  (length links mod 10 <> 0 ->
   length (nth (length links / 10) log []) = length links mod 10).
Proof.
  cbv zeta.
  apply (poki_loop_chunks Fixtures.quiet_world (map Fixtures.numbered (seq 0 23)) []).
  vm_compute. reflexivity.
Defined.

Lemma label_follows_dispatch_witness :
  website_label
    (mkGame (PStr "Tetris") (PStr "Stack the blocks") EmptyString
            "https://www.gamepix.com/play/tetris" EmptyString)
  = "GamePix".
Proof.
  exact (label_follows_dispatch Fixtures.one_link_world (Some "<tetris>")
           "https://www.gamepix.com/play/tetris"
           (mkGame (PStr "Tetris") (PStr "Stack the blocks") EmptyString
                   "https://www.gamepix.com/play/tetris" EmptyString)
           eq_refl).
Defined.

Lemma first_match_first_witness :
  first_match content_or_text (fun x => x) Fixtures.empty_og_title
    ([og "title"; Bs4.sel_eq "meta" "name" "title"] ++ "h1" :: [".game-title"])%list None
  = Some "Heading".
Proof.
  apply (first_match_first content_or_text (fun x => x) Fixtures.empty_og_title
           [og "title"; Bs4.sel_eq "meta" "name" "title"] "h1" [".game-title"]
           (Fixtures.heading "Heading") None).
  - reflexivity.
  - reflexivity.
  - intros s e [<-|[<-|[]]] E; vm_compute in E.
    + injection E as <-. reflexivity.
    + discriminate.
Defined.

Lemma extract_from_soup_emits_witness :
  let r := mkGame (PStr "Heading") (PStr "About") EmptyString
                  Fixtures.two_titles_url EmptyString in
  next_data Fixtures.quiet_world Fixtures.two_titles Fixtures.two_titles_url
  = Some (Some r) \/
  (truthy (name r) = true /\
   (poki_iframe Fixtures.quiet_world Fixtures.two_titles Fixtures.two_titles_url = Some r \/
    truthy (description r) = true \/ nonempty (image_url r) = true)).
Proof.
  cbv zeta.
  apply (extract_from_soup_emits Fixtures.quiet_world Fixtures.two_titles "<page>").
  reflexivity.
Defined.

Lemma payload_ignored_off_game_distribution_witness :
  extract_from_soup Fixtures.untitled_world Fixtures.mixed_page "<page>"
    Fixtures.two_titles_url
  = extract_from_soup Fixtures.quiet_world Fixtures.mixed_page "<page>"
      Fixtures.two_titles_url.
Proof.
  apply (payload_ignored_off_game_distribution Fixtures.quiet_world
           Fixtures.untitled_world).
  - reflexivity.
  - right. reflexivity.
Defined.

Lemma nameless_asset_drops_payload_witness :
  extract_from_soup Fixtures.nameless_world Fixtures.nameless_page "<page>"
    Fixtures.untitled_url
  = generic_fallback Fixtures.nameless_world Fixtures.nameless_page "<page>"
      Fixtures.untitled_url.
Proof.
  apply (nameless_asset_drops_payload Fixtures.nameless_world Fixtures.nameless_page
           "<page>" Fixtures.untitled_url Fixtures.nameless_game
           [] Fixtures.nameless_asset [] 300).
  - reflexivity.
  - reflexivity.
  - reflexivity.
  - reflexivity.
  - intros b w' [].
  - reflexivity.
  - lia.
  - reflexivity.
Defined.

Lemma scan_assets_tie_keeps_first_witness :
  exists nm,
    py_item (Fixtures.asset "first.jpg" 800) "name" = Some nm /\
    fst ("https://img.gamedistribution.com/first.jpg", 800%Z)
    = "https://img.gamedistribution.com/" ++ py_str (repr Fixtures.quiet_world) nm.
Proof.
  assert (Hrest : forall c w',
            In c ([Fixtures.asset "small.jpg" 200] ++ [])%list ->
            declared_width c = Some w' -> (w' <= 800)%Z).
  { intros c w' [<-|[]] E. vm_compute in E. injection E as <-. lia. }
  apply (scan_assets_tie_keeps_first Fixtures.quiet_world
           [] (Fixtures.asset "first.jpg" 800) [Fixtures.asset "small.jpg" 200]
           (Fixtures.asset "second.jpg" 800) [] 800 _ eq_refl eq_refl eq_refl).
  - lia.
  - intros c w' [].
  - exact Hrest.
Defined.

Lemma generic_image_base_witness :
  exists selector elem,
    In selector (img_selectors Fixtures.poki_plain_url) /\
    select_one Fixtures.relative_image_page selector = Some elem /\
    nonempty (content_or_src elem) = true /\
    "https://gamedistribution.com/img/plain.png"
    = if startswith (content_or_src elem) "http" then content_or_src elem
      else urljoin Fixtures.quiet_world
             (if is_gamepix Fixtures.poki_plain_url then "https://www.gamepix.com"
              else "https://gamedistribution.com")
             (content_or_src elem).
Proof.
  apply (generic_image_base Fixtures.quiet_world Fixtures.relative_image_page
           Fixtures.poki_plain_url).
  - reflexivity.
  - reflexivity.
Defined.

Lemma generic_api_url_identifier_witness :
  exists g,
    "https://html5.gamedistribution.com/0123456789abcdef0123456789abcdef/"
    = "https://html5.gamedistribution.com/" ++ g ++ "/" /\
    String.length g = 32 /\
    forallb is_hex (list_ascii_of_string g) = true /\
    (contains ("/games/" ++ g)
       "https://gamedistribution.com/games/0123456789abcdef0123456789abcdef/" = true \/
     (re_search match_games_id
        "https://gamedistribution.com/games/0123456789abcdef0123456789abcdef/" = None /\
      exists before middle rest,
        "<html>" = before ++ "game_id" ++ middle ++ g ++ rest)).
Proof.
  apply (generic_api_url_identifier Fixtures.no_soup "<html>"
           "https://gamedistribution.com/games/0123456789abcdef0123456789abcdef/").
  - reflexivity.
  - reflexivity.
  - reflexivity.
Defined.

(** ** What the rendering branch fetches *)

Section RenderingRequests.

Variable W : World.

Lemma batch_requests_app games games' url :
  batch_requests W (games ++ games')%list url
  = (batch_requests W games url ++ batch_requests W games' url)%list.
Proof. unfold batch_requests. apply flat_map_app. Qed.

Lemma batch_requests_records recs url : batch_requests W (map Rec recs) url = [].
Proof. induction recs as [|r recs IH]; [reflexivity | exact IH]. Qed.

Lemma batch_requests_firstn_records n recs url :
  batch_requests W (firstn n (map Rec recs)) url = [].
Proof. rewrite firstn_map. apply batch_requests_records. Qed.

Lemma batch_requests_concat (ls : list (list item)) url :
  batch_requests W (concat ls) url = concat (map (fun l => batch_requests W l url) ls).
Proof.
  induction ls as [|l ls IH]; [reflexivity|].
  cbn [concat map]. rewrite batch_requests_app, IH. reflexivity.
Qed.

(** A slice of the list [games] once records were appended: the slice of the
    discovered elements, then some of the records. *)
Lemma slice_with_records (links : list item) recs i :
  i <= length links ->
  slice (links ++ map Rec recs)%list i (i + 10)
  = (slice links i (i + 10)
     ++ firstn (10 - (length links - i)) (map Rec recs))%list.
Proof.
  intros Hi. unfold slice.
  replace (i + 10 - i) with 10 by lia.
  rewrite skipn_app, firstn_app, length_skipn.
  replace (i - length links) with 0 by lia. reflexivity.
Qed.

Lemma render_loop_requests url (links : list item) starts : forall recs log,
  (forall i, In i starts -> i <= length links) ->
  exists k,
    k <= length starts /\
    length (snd (render_loop W url starts (links ++ map Rec recs)%list log))
    = length log + k /\
    map lg_requests (snd (render_loop W url starts (links ++ map Rec recs)%list log))
    = (map lg_requests log
       ++ map (fun i => batch_requests W (slice links i (i + 10)) url) (firstn k starts))%list.
Proof.
  induction starts as [|i rest IH]; intros recs log Hs.
  - exists 0. simpl. rewrite app_nil_r. repeat split; lia.
  - cbn [render_loop].
    assert (Hreq : batch_requests W (slice (links ++ map Rec recs)%list i (i + 10)) url
                   = batch_requests W (slice links i (i + 10)) url).
    { rewrite slice_with_records by (apply Hs; left; reflexivity).
      rewrite batch_requests_app, batch_requests_firstn_records. apply app_nil_r. }
    match goal with
    | |- context [collect ?d ?g] =>
        destruct (collect_appends d g) as [recs' E];
        destruct (collect d g) as [games' [|]]
    end; cbn [fst] in E; subst games'.
    + exists 1. cbn [snd firstn map]. rewrite length_app, map_app. cbn [map lg_requests length].
      rewrite Hreq. repeat split; simpl; lia.
    + rewrite <- app_assoc, <- map_app.
      destruct (IH (recs ++ recs')%list
                  (log ++ [mkLog (slice (links ++ map Rec recs)%list i (i + 10))
                     (batch_requests W (slice (links ++ map Rec recs)%list i (i + 10)) url)])%list)
        as (k & Hk & Hl & Hm); [intros j Hj; apply Hs; right; exact Hj|].
      exists (S k). rewrite Hl, Hm, length_app, map_app.
      cbn [map lg_requests length firstn]. rewrite Hreq, <- app_assoc.
      repeat split; simpl; lia.
Qed.

(** X20: the detail pages the rendering branch asks for, batch after batch,
    are the pages of the discovered elements that have an href, in discovery
    order and each once: what the loop asked for is a prefix of those
    requests, and all of them when every batch was run.  The records the
    loop appends to [games] are never fetched. *)
Theorem render_requests_follow_links url (links : list item) :
  let log := snd (render_loop W url (range_step (length links) 10) links []) in
  (exists rest,
     batch_requests W links url = (concat (map lg_requests log) ++ rest)%list) /\
  (length log = (length links + 9) / 10 ->
   concat (map lg_requests log) = batch_requests W links url).
Proof.
  cbv zeta.
  destruct (render_loop_requests url links (range_step (length links) 10) [] [])
    as (k & Hk & Hl & Hm).
  { intros i Hi. apply range_step_members in Hi. destruct Hi as (j & -> & Hj). lia. }
  cbn [map app] in Hl, Hm. rewrite app_nil_r in Hl, Hm. cbn [length] in Hl.
  set (starts := range_step (length links) 10) in *.
  assert (Hall : batch_requests W links url
                 = concat (map (fun i => batch_requests W (slice links i (i + 10)) url)
                               starts)).
  { rewrite <- (chunks_partition links) at 1. fold starts.
    rewrite batch_requests_concat, map_map. reflexivity. }
  split.
  - exists (concat (map (fun i => batch_requests W (slice links i (i + 10)) url)
                        (skipn k starts))).
    rewrite Hm, Hall, <- concat_app, <- map_app, firstn_skipn. reflexivity.
  - intros Hlen. rewrite Hl in Hlen. rewrite Hm, Hall.
    rewrite firstn_all2; [reflexivity|].
    unfold starts. rewrite range_step_length. lia.
Qed.

End RenderingRequests.

(** ** The GamePix block and the generic chain *)

Section GamePixBlock.

Variable W : World.







End GamePixBlock.



